(** * Memory subsystem of infinity-orchestrator: a shallow embedding

    This file embeds [stacks/memory/vector_store.py] (tokenizer, TF-IDF
    sparse embedding, cosine similarity, the JSONL-backed [VectorStore] and
    the heading-aware chunker [_chunk_text]) and [stacks/memory/rehydration.py]
    ([rehydrate] and its source loaders), and proves properties of them.

    Modelling conventions.
    - Python [str] is modelled over ASCII characters ([string] / [list ascii]).
    - Python floats are modelled by the real numbers [R]: [math.log1p x] is
      [ln (1 + x)], [math.sqrt] is [sqrt].
    - A Python [dict] is an association list with Python's insertion-order
      semantics: assigning an existing key replaces its value in place,
      assigning a new key appends it.
    - Python [int] parameters are [Z]; list slicing follows Python's rules
      for negative and out-of-range bounds.
    - A [while] loop whose termination depends on its parameters is run with
      an explicit fuel; [None] means the fuel ran out. *)

From Stdlib Require Import Reals Lra Lia ZArith List String Ascii Bool.
From Stdlib Require Import Sorting.Permutation Sorting.Sorted Psatz.
From Stdlib Require Import DecimalString DecimalNat.
Import ListNotations.

Set Warnings "-register-all".
Open Scope string_scope.
Open Scope R_scope.

(** ** Python helpers *)

Module Py.

(** Python's normalisation of a slice bound [i] for a sequence of length
    [n]: negative bounds count from the end, then clamp to [0, n]. *)
Definition slice_bound (n i : Z) : Z :=
  let j := if (i <? 0)%Z then (i + n)%Z else i in
  Z.max 0 (Z.min j n).

(** [xs[i:j]] *)
Definition slice {A} (xs : list A) (i j : Z) : list A :=
  let n := Z.of_nat (List.length xs) in
  let i' := slice_bound n i in
  let j' := slice_bound n j in
  firstn (Z.to_nat (j' - i')) (skipn (Z.to_nat i') xs).

(** [xs[:j]] *)
Definition slice_to {A} (xs : list A) (j : Z) : list A := slice xs 0 j.

(** [str.isspace] on ASCII (also the separators of [str.split()] and of
    the regular expression class [\s]): [\t \n \x0b \x0c \r], the
    information separators [\x1c]-[\x1f] and space. *)
Definition is_space (c : ascii) : bool :=
  let n := nat_of_ascii c in
  ((9 <=? n) && (n <=? 13))%nat || ((28 <=? n) && (n <=? 32))%nat.

(** [" ".join(words)] *)
Fixpoint join_space (ws : list string) : string :=
  match ws with
  | [] => EmptyString
  | [w] => w
  | w :: ws' => (w ++ " " ++ join_space ws')%string
  end.

(** Truthiness of [s.strip()]: some character is not whitespace. *)
Definition strip_nonempty (s : string) : bool :=
  existsb (fun c => negb (is_space c)) (list_ascii_of_string s).

(** [str.split()] with no argument: maximal runs of non-whitespace. *)
Fixpoint split_ws_go (cs : list ascii) (cur : list ascii) : list string :=
  match cs with
  | [] => match cur with [] => [] | _ => [string_of_list_ascii (rev cur)] end
  | c :: cs' =>
      if is_space c then
        match cur with
        | [] => split_ws_go cs' []
        | _ => string_of_list_ascii (rev cur) :: split_ws_go cs' []
        end
      else split_ws_go cs' (c :: cur)
  end.

Definition split_ws (s : string) : list string :=
  split_ws_go (list_ascii_of_string s) [].

(** Association-list view of a Python [dict]. *)
Fixpoint lookup {V} (k : string) (d : list (string * V)) : option V :=
  match d with
  | [] => None
  | (k', v) :: d' => if string_dec k k' then Some v else lookup k d'
  end.

(** [d[k] = v] *)
Fixpoint dict_set {V} (k : string) (v : V) (d : list (string * V))
  : list (string * V) :=
  match d with
  | [] => [(k, v)]
  | (k', v') :: d' =>
      if string_dec k k' then (k', v) :: d' else (k', v') :: dict_set k v d'
  end.

End Py.

(** ** Tokenizer: [_tokenize] *)

(** A character of the class [[a-zA-Z0-9_\-]] of [_TOKEN_RE]. *)
Definition is_token_char (c : ascii) : bool :=
  let n := nat_of_ascii c in
  ((65 <=? n) && (n <=? 90))%nat || ((97 <=? n) && (n <=? 122))%nat
  || ((48 <=? n) && (n <=? 57))%nat || (n =? 95)%nat || (n =? 45)%nat.

(** [_TOKEN_RE.findall(text)]: the maximal runs of token characters, left
    to right ([+] is greedy and matches never overlap). *)
Fixpoint findall_go (cs : list ascii) (cur : list ascii) : list string :=
  match cs with
  | [] => match cur with [] => [] | _ => [string_of_list_ascii (rev cur)] end
  | c :: cs' =>
      if is_token_char c then findall_go cs' (c :: cur)
      else
        match cur with
        | [] => findall_go cs' []
        | _ => string_of_list_ascii (rev cur) :: findall_go cs' []
        end
  end.

Definition token_findall (text : string) : list string :=
  findall_go (list_ascii_of_string text) [].

(** [str.lower] on ASCII. *)
Definition lower_char (c : ascii) : ascii :=
  let n := nat_of_ascii c in
  if ((65 <=? n) && (n <=? 90))%nat then ascii_of_nat (n + 32) else c.

Definition lower (s : string) : string :=
  string_of_list_ascii (map lower_char (list_ascii_of_string s)).

(** [[t.lower() for t in _TOKEN_RE.findall(text) if len(t) > 1]] *)
Definition _tokenize (text : string) : list string :=
  map lower (filter (fun t => (1 <? String.length t)%nat) (token_findall text)).

(** ** Sparse embedding: [_tfidf_embed] *)

Definition sparse := list (string * R).

(** [collections.Counter(tokens)]: a dict from token to count, keys in
    order of first occurrence. *)
Definition counter_add (cnt : list (string * nat)) (t : string)
  : list (string * nat) :=
  match Py.lookup t cnt with
  | Some c => Py.dict_set t (S c) cnt
  | None => Py.dict_set t 1%nat cnt
  end.

Definition Counter (ts : list string) : list (string * nat) :=
  fold_left counter_add ts [].

(** [math.log1p] *)
Definition log1p (x : R) : R := ln (1 + x).

(** [_tfidf_embed(text)] (the unused [vocab] argument is omitted). *)
Definition _tfidf_embed (text : string) : sparse :=
  let tokens := _tokenize text in
  match tokens with
  | [] => []
  | _ =>
      let counts := Counter tokens in
      let total := List.length tokens in
      let tf := map (fun '(term, count) => (term, INR count / INR total)) counts in
      map (fun '(term, tf_val) => (term, tf_val * log1p (1 / tf_val))) tf
  end.

(** ** Cosine similarity: [_cosine_sparse] *)

Definition sumR (xs : list R) : R := fold_right Rplus 0 xs.

(** [a[k]] for a key known to be present. *)
Definition get (a : sparse) (k : string) : R :=
  match Py.lookup k a with Some v => v | None => 0 end.

Definition has_key (b : sparse) (k : string) : bool :=
  match Py.lookup k b with Some _ => true | None => false end.

(** [set(a) & set(b)], listed in the order of [a]'s keys. *)
Definition common_keys (a b : sparse) : list string :=
  filter (has_key b) (map fst a).

Definition magnitude (a : sparse) : R :=
  sqrt (sumR (map (fun '(_, v) => v * v) a)).

Definition _cosine_sparse (a b : sparse) : R :=
  match common_keys a b with
  | [] => 0
  | common =>
      let dot := sumR (map (fun k => get a k * get b k) common) in
      let mag_a := magnitude a in
      let mag_b := magnitude b in
      if Req_EM_T mag_a 0 then 0
      else if Req_EM_T mag_b 0 then 0
      else dot / (mag_a * mag_b)
  end.

(** ** Documents and embeddings *)

(** JSON values as [json.loads] returns them. *)
Inductive json : Type :=
| JNull
| JBool (b : bool)
| JNum (r : R)
| JStr (s : string)
| JArr (xs : list json)
| JObj (fields : list (string * json)).

(** The embedding dict [{"backend", "sparse", "dense"}] of [embed_text]. *)
Record Embedding := mkEmbedding {
  backend : string;
  sparse_vec : sparse;
  dense : option (list R)
}.

(** Configuration read from the environment at import time. *)
Record Config := mkConfig {
  _EMBED_BACKEND : string
}.

(** What the outside world supplies to one call: the clock, the next
    [uuid.uuid4()], the [GITHUB_RUN_ID] variable and the answer of the
    remote embedding service ([None] when the call failed and degraded). *)
Record Env := mkEnv {
  now : string;
  uuid4 : string;
  github_run_id : string;
  remote_dense : option (list R)
}.

(** [embed_text(text)]: the sparse vector is always computed, the dense one
    only for the [openai] and [ollama] backends. *)
Definition embed_text (cfg : Config) (env : Env) (text : string) : Embedding :=
  let sp := _tfidf_embed text in
  let dn :=
    if string_dec (_EMBED_BACKEND cfg) "openai" then remote_dense env
    else if string_dec (_EMBED_BACKEND cfg) "ollama" then remote_dense env
    else None in
  mkEmbedding (_EMBED_BACKEND cfg) sp dn.

Definition _empty_embedding : Embedding := mkEmbedding "none" [] None.

Record Document := mkDocument {
  id : string;
  content : string;
  embedding : Embedding;
  metadata : list (string * json);
  timestamp : string;
  correlation_id : string;
  run_id : string
}.

(** Python's [x or default] on an optional string. *)
Definition str_or (x : option string) (dflt : string) : string :=
  match x with
  | None | Some EmptyString => dflt
  | Some s => s
  end.

(** [Document.__init__] *)
Definition make_document (env : Env) (id_ content_ : string) (emb : Embedding)
    (metadata_ : list (string * json)) (timestamp_ correlation_id_ : option string)
    (run_id_ : string) : Document :=
  {| id := id_;
     content := content_;
     embedding := emb;
     metadata := metadata_;
     timestamp := str_or timestamp_ (now env);
     correlation_id := str_or correlation_id_ (uuid4 env);
     run_id := str_or (Some run_id_) (github_run_id env) |}.

Definition json_of_sparse (v : sparse) : json :=
  JObj (map (fun '(k, x) => (k, JNum x)) v).

Definition json_of_embedding (e : Embedding) : json :=
  JObj [("backend", JStr (backend e));
        ("sparse", json_of_sparse (sparse_vec e));
        ("dense", match dense e with
                  | None => JNull
                  | Some xs => JArr (map JNum xs)
                  end)].

(** [Document.to_dict] *)
Definition to_dict (d : Document) : json :=
  JObj [("id", JStr (id d));
        ("content", JStr (content d));
        ("embedding", json_of_embedding (embedding d));
        ("metadata", JObj (metadata d));
        ("timestamp", JStr (timestamp d));
        ("correlation_id", JStr (correlation_id d));
        ("run_id", JStr (run_id d))].

Fixpoint sparse_of_json_fields (fs : list (string * json)) : option sparse :=
  match fs with
  | [] => Some []
  | (k, JNum x) :: fs' =>
      match sparse_of_json_fields fs' with
      | Some v => Some ((k, x) :: v)
      | None => None
      end
  | _ :: _ => None
  end.

Fixpoint nums_of_json (xs : list json) : option (list R) :=
  match xs with
  | [] => Some []
  | JNum x :: xs' =>
      match nums_of_json xs' with Some v => Some (x :: v) | None => None end
  | _ :: _ => None
  end.

(** Reading back an embedding dict.  Records that [Document.to_dict] did not
    write may hold an embedding of another shape; those are treated like a
    record [Document.from_dict] rejects. *)
Definition embedding_of_json (j : json) : option Embedding :=
  match j with
  | JObj fs =>
      match Py.lookup "backend" fs, Py.lookup "sparse" fs, Py.lookup "dense" fs with
      | Some (JStr b), Some (JObj sp), dn =>
          match sparse_of_json_fields sp with
          | Some v =>
              match dn with
              | None | Some JNull => Some (mkEmbedding b v None)
              | Some (JArr xs) =>
                  match nums_of_json xs with
                  | Some ys => Some (mkEmbedding b v (Some ys))
                  | None => None
                  end
              | Some _ => None
              end
          | None => None
          end
      | _, _, _ => None
      end
  | _ => None
  end.

(** [d.get(key)] for an optional string field. *)
Definition opt_str_field (fs : list (string * json)) (key : string)
  : option (option string) :=
  match Py.lookup key fs with
  | None | Some JNull => Some None
  | Some (JStr s) => Some (Some s)
  | Some _ => None
  end.

(** [Document.from_dict]; [None] is an exception (a missing [id] or
    [content] raises [KeyError]).  [metadata] is [d.get("metadata", {})]
    followed by [metadata or {}].  The model reads only records whose
    fields have the types [to_dict] writes (string [id] and [content], an
    embedding dict, a metadata dict, string or null optional fields) and
    returns [None] on the others, some of which Python accepts. *)
Definition from_dict (env : Env) (j : json) : option Document :=
  match j with
  | JObj fs =>
      match Py.lookup "id" fs, Py.lookup "content" fs with
      | Some (JStr i), Some (JStr c) =>
          let emb := match Py.lookup "embedding" fs with
                     | None => Some (mkEmbedding "none" [] None)
                     | Some e => embedding_of_json e
                     end in
          let md := match Py.lookup "metadata" fs with
                    | None | Some JNull => Some []
                    | Some (JObj m) => Some m
                    | Some _ => None
                    end in
          match emb, md, opt_str_field fs "timestamp",
                opt_str_field fs "correlation_id", opt_str_field fs "run_id" with
          | Some e, Some m, Some ts, Some cid, Some rid =>
              Some (make_document env i c e m ts cid (str_or rid ""))
          | _, _, _, _, _ => None
          end
      | _, _ => None
      end
  | _ => None
  end.

(** ** The JSONL-backed store: [VectorStore] *)

(** One line of the backing file as [_load] sees it: blank after
    [line.strip()], text on which [json.loads] fails, or a JSON value.  A line
    written by [_flush] is [json.dumps(v) + "\n"]; [json.dumps] escapes every
    control character, so the line holds no line break, starts with [{] and
    [json.loads] gives back [v].  Lines are therefore kept as the JSON value
    they carry. *)
Inductive line : Type :=
| Blank
| Garbage
| JsonLine (j : json).

Record VectorStore := mkVectorStore {
  _index : list (string * Document)
}.

(** The body of [_load]: [self._index[doc.id] = doc] for every line that
    parses, in file order; any exception skips the line.  [envs i] is the
    environment seen while reading line [i]. *)
Fixpoint load_lines (envs : nat -> Env) (i : nat) (ls : list line)
    (idx : list (string * Document)) : list (string * Document) :=
  match ls with
  | [] => idx
  | l :: ls' =>
      let idx' :=
        match l with
        | Blank | Garbage => idx
        | JsonLine j =>
            match from_dict (envs i) j with
            | Some doc => Py.dict_set (id doc) doc idx
            | None => idx
            end
        end in
      load_lines envs (S i) ls' idx'
  end.

(** [_load]; [None] is a backing file that does not exist. *)
Definition _load (envs : nat -> Env) (file : option (list line))
  : list (string * Document) :=
  match file with
  | None => []
  | Some ls => load_lines envs 0 ls []
  end.

(** [VectorStore(path)] for the file found at [path]. *)
Definition new_store (envs : nat -> Env) (file : option (list line)) : VectorStore :=
  mkVectorStore (_load envs file).

(** [_flush]: the new content of the backing file, one line per document in
    index order (written to a temporary file, then renamed over [path]). *)
Definition _flush (st : VectorStore) : list line :=
  map (fun '(_, doc) => JsonLine (to_dict doc)) (_index st).

(** [embed_text(content) if not skip_embed else _empty_embedding()] *)
Definition doc_embedding (cfg : Config) (env : Env) (skip_embed : bool)
    (content_ : string) : Embedding :=
  if skip_embed then _empty_embedding else embed_text cfg env content_.

(** [upsert(doc_id, content, metadata=..., correlation_id=..., run_id=...,
    skip_embed=...)]: the new store, the new file content and the returned
    document. *)
Definition upsert (cfg : Config) (env : Env) (st : VectorStore)
    (doc_id content_ : string) (metadata_ : option (list (string * json)))
    (correlation_id_ : option string) (run_id_ : string) (skip_embed : bool)
  : VectorStore * list line * Document :=
  let emb := doc_embedding cfg env skip_embed content_ in
  let md := match metadata_ with Some m => m | None => [] end in
  let doc := make_document env doc_id content_ emb md None correlation_id_ run_id_ in
  let st' := mkVectorStore (Py.dict_set doc_id doc (_index st)) in
  (st', _flush st', doc).

(** [get(doc_id)] *)
Definition get_doc (st : VectorStore) (doc_id : string) : option Document :=
  Py.lookup doc_id (_index st).

(** [count()] *)
Definition count (st : VectorStore) : nat := List.length (_index st).

(** [del d[k]] *)
Fixpoint dict_del {V} (k : string) (d : list (string * V)) : list (string * V) :=
  match d with
  | [] => []
  | (k', v) :: d' => if string_dec k k' then d' else (k', v) :: dict_del k d'
  end.

(** [delete(doc_id)]: the new store, the new file content when the file is
    rewritten, and the returned boolean. *)
Definition delete (st : VectorStore) (doc_id : string)
  : VectorStore * option (list line) * bool :=
  match Py.lookup doc_id (_index st) with
  | Some _ =>
      let st' := mkVectorStore (dict_del doc_id (_index st)) in
      (st', Some (_flush st'), true)
  | None => (st, None, false)
  end.

(** [clear()] *)
Definition clear (st : VectorStore) : VectorStore * list line :=
  let st' := mkVectorStore [] in (st', _flush st').

(** The arguments of one [upsert] call and the environment it runs in. *)
Record UpsertCall := mkUpsertCall {
  call_env : Env;
  call_doc_id : string;
  call_content : string;
  call_metadata : option (list (string * json));
  call_correlation_id : option string;
  call_run_id : string;
  call_skip_embed : bool
}.

Definition upsert_call (cfg : Config) (st : VectorStore) (c : UpsertCall)
  : VectorStore * list line * Document :=
  upsert cfg (call_env c) st (call_doc_id c) (call_content c) (call_metadata c)
    (call_correlation_id c) (call_run_id c) (call_skip_embed c).

(** A sequence of [upsert] calls on one instance, threading the backing
    file: the final store and the final file. *)
Fixpoint run_upserts (cfg : Config) (calls : list UpsertCall) (st : VectorStore)
    (file : option (list line)) : VectorStore * option (list line) :=
  match calls with
  | [] => (st, file)
  | c :: calls' =>
      let '(st', lines, _) := upsert_call cfg st c in
      run_upserts cfg calls' st' (Some lines)
  end.

(** The stores a program can hold: built by the constructor, then changed
    by [upsert], [delete] and [clear]. *)
Inductive reachable (cfg : Config) : VectorStore -> Prop :=
| reach_new envs file : reachable cfg (new_store envs file)
| reach_upsert st c : reachable cfg st -> reachable cfg (fst (fst (upsert_call cfg st c)))
| reach_delete st k : reachable cfg st -> reachable cfg (fst (fst (delete st k)))
| reach_clear st : reachable cfg st -> reachable cfg (fst (clear st)).

(** One mutating call on a store. *)
Inductive StoreOp : Type :=
| OpUpsert (c : UpsertCall)
| OpDelete (doc_id : string)
| OpClear.

(** A sequence of mutating calls on one instance, threading the backing
    file ([delete] of a missing id does not rewrite it). *)
Fixpoint run_ops (cfg : Config) (ops : list StoreOp) (st : VectorStore)
    (file : option (list line)) : VectorStore * option (list line) :=
  match ops with
  | [] => (st, file)
  | OpUpsert c :: ops' =>
      let '(st', lines, _) := upsert_call cfg st c in run_ops cfg ops' st' (Some lines)
  | OpDelete k :: ops' =>
      let '(st', written, _) := delete st k in
      run_ops cfg ops' st' (match written with Some ls => Some ls | None => file end)
  | OpClear :: ops' =>
      let '(st', lines) := clear st in run_ops cfg ops' st' (Some lines)
  end.

(** [list.sort(key=lambda x: x[0], reverse=True)]: a stable sort on
    descending keys, written as an insertion sort; an element goes after
    every element whose key is not smaller. *)
Fixpoint insert_desc {A} (x : R * A) (l : list (R * A)) : list (R * A) :=
  match l with
  | [] => [x]
  | y :: l' => if Rlt_dec (fst y) (fst x) then x :: l else y :: insert_desc x l'
  end.

Definition sort_desc {A} (l : list (R * A)) : list (R * A) :=
  fold_left (fun acc x => insert_desc x acc) l [].

(** The [scored] list of [query] before sorting. *)
Definition scored_candidates (cfg : Config) (env : Env) (st : VectorStore)
    (query_text : string) : list (R * Document) :=
  let q_sparse := sparse_vec (embed_text cfg env query_text) in
  let candidates := map snd (_index st) in
  map (fun doc => (_cosine_sparse q_sparse (sparse_vec (embedding doc)), doc))
      candidates.

(** [query(query_text, top_k)] with no [metadata_filter] ([None], the default,
    or an empty dict); [query_filtered] below models the filter. *)
Definition query (cfg : Config) (env : Env) (st : VectorStore)
    (query_text : string) (top_k : Z) : list (R * Document) :=
  match _index st with
  | [] => []
  | _ => Py.slice_to (sort_desc (scored_candidates cfg env st query_text)) top_k
  end.

(** Python's [a == b] on JSON values ([JObj] holds the items of a dict,
    so its keys are distinct): [bool] is a subtype of [int], so [True == 1]
    and [True == 1.0]; numbers compare by value; lists elementwise; dicts
    by their key sets and the values under each key; values of different
    kinds are unequal. *)
Fixpoint py_eq (a b : json) {struct a} : bool :=
  match a, b with
  | JNull, JNull => true
  | JBool x, JBool y => Bool.eqb x y
  | JBool x, JNum r => if Req_EM_T (if x then 1 else 0) r then true else false
  | JNum r, JBool y => if Req_EM_T r (if y then 1 else 0) then true else false
  | JNum r, JNum r' => if Req_EM_T r r' then true else false
  | JStr s, JStr s' => if string_dec s s' then true else false
  | JArr xs, JArr ys =>
      (fix go (xs ys : list json) : bool :=
         match xs, ys with
         | [], [] => true
         | x :: xs', y :: ys' => py_eq x y && go xs' ys'
         | _, _ => false
         end) xs ys
  | JObj fs, JObj gs =>
      Nat.eqb (List.length fs) (List.length gs) &&
      (fix go (fs : list (string * json)) : bool :=
         match fs with
         | [] => true
         | (k, v) :: fs' =>
             match Py.lookup k gs with Some w => py_eq v w | None => false end && go fs'
         end) fs
  | _, _ => false
  end.

(** [all(d.metadata.get(k) == v for k, v in metadata_filter.items())];
    [get] gives [None] for a missing key. *)
Definition metadata_matches (metadata_filter : list (string * json)) (d : Document) : bool :=
  forallb (fun '(k, v) =>
             py_eq (match Py.lookup k (metadata d) with Some x => x | None => JNull end) v)
          metadata_filter.

(** [query(query_text, top_k, metadata_filter)]: [if metadata_filter:]
    filters only with a non-empty dict. *)
Definition query_filtered (cfg : Config) (env : Env) (st : VectorStore)
    (query_text : string) (top_k : Z) (metadata_filter : option (list (string * json)))
  : list (R * Document) :=
  match _index st with
  | [] => []
  | _ =>
      let q_sparse := sparse_vec (embed_text cfg env query_text) in
      let candidates := map snd (_index st) in
      let candidates :=
        match metadata_filter with
        | Some ((_ :: _) as f) => filter (metadata_matches f) candidates
        | _ => candidates
        end in
      let scored :=
        map (fun doc => (_cosine_sparse q_sparse (sparse_vec (embedding doc)), doc))
            candidates in
      Py.slice_to (sort_desc scored) top_k
  end.

(** Whether a document passes [metadata_filter]: every document passes
    when the filter is [None] or empty. *)
Definition passes_filter (metadata_filter : option (list (string * json))) (d : Document)
  : bool :=
  match metadata_filter with
  | Some ((_ :: _) as f) => metadata_matches f d
  | _ => true
  end.

(** ** The chunker: [_chunk_text] *)

Definition _CHUNK_FALLBACK_MULTIPLIER : Z := 6.

(** The number of leading ['#'] characters and what follows them. *)
Fixpoint count_hashes (s : list ascii) : nat * list ascii :=
  match s with
  | c :: s' =>
      if ascii_dec c "#" then let '(n, r) := count_hashes s' in (S n, r)
      else (0%nat, s)
  | [] => (0%nat, [])
  end.

(** A match of [#{1,6}\s] at the start of [s]: the whitespace character
    ending the match and the text after it.  Backtracking in [#{1,6}] cannot
    help: with fewer hashes than the run holds, the next character is ['#']. *)
Definition match_heading (s : list ascii) : option (ascii * list ascii) :=
  let '(n, r) := count_hashes s in
  if ((1 <=? n) && (n <=? 6))%nat then
    match r with
    | c :: r' => if Py.is_space c then Some (c, r') else None
    | [] => None
    end
  else None.

Definition newline : ascii := ascii_of_nat 10.

(** [_HEADING_RE.split(text)] with [_HEADING_RE = re.compile(r"^#{1,6}\s",
    re.MULTILINE)]: scanning left to right, a match is tried where [^]
    holds ([bol]: start of the text or after a newline); each match ends the
    current piece and is dropped.  Every step consumes a character, so
    [S (length s)] fuel always suffices. *)
Fixpoint heading_split_go (fuel : nat) (bol : bool) (s : list ascii)
    (cur : list ascii) : list string :=
  match fuel with
  | O => [string_of_list_ascii (rev cur)]
  | S f =>
      match s with
      | [] => [string_of_list_ascii (rev cur)]
      | c :: s' =>
          match (if bol then match_heading s else None) with
          | Some (ws, rest) =>
              string_of_list_ascii (rev cur)
                :: heading_split_go f (Ascii.eqb ws newline) rest []
          | None => heading_split_go f (Ascii.eqb c newline) s' (c :: cur)
          end
      end
  end.

Definition heading_split (text : string) : list string :=
  let cs := list_ascii_of_string text in
  heading_split_go (S (List.length cs)) true cs [].

(** The [while start < len(words)] loop of one section, with [fuel]
    iterations at most; [None] when the fuel runs out. *)
Fixpoint window_loop (fuel : nat) (words : list string) (chunk_size overlap : Z)
    (start : Z) : option (list string) :=
  match fuel with
  | O => None
  | S f =>
      let n := Z.of_nat (List.length words) in
      if (start <? n)%Z then
        let end_ := Z.min (start + chunk_size) n in
        let chunk := Py.join_space (Py.slice words start end_) in
        let emitted := if Py.strip_nonempty chunk then [chunk] else [] in
        if (n <=? end_)%Z then Some emitted
        else
          match window_loop f words chunk_size overlap (end_ - overlap) with
          | Some rest => Some (app emitted rest)
          | None => None
          end
      else Some []
  end.

(** The [for section in sections] loop: sections without words are
    skipped; each other section runs its window loop with [fuel]. *)
Fixpoint sections_loop (fuel : nat) (sections : list string)
    (chunk_size overlap : Z) : option (list string) :=
  match sections with
  | [] => Some []
  | section :: rest =>
      match Py.split_ws section with
      | [] => sections_loop fuel rest chunk_size overlap
      | words =>
          match window_loop fuel words chunk_size overlap 0,
                sections_loop fuel rest chunk_size overlap with
          | Some a, Some b => Some (app a b)
          | _, _ => None
          end
      end
  end.

(** [_chunk_text(text, chunk_size, overlap)] *)
Definition _chunk_text (fuel : nat) (text : string) (chunk_size overlap : Z)
  : option (list string) :=
  match sections_loop fuel (heading_split text) chunk_size overlap with
  | None => None
  | Some [] =>
      Some [string_of_list_ascii
              (Py.slice_to (list_ascii_of_string text)
                 (chunk_size * _CHUNK_FALLBACK_MULTIPLIER)%Z)]
  | Some chunks => Some chunks
  end.

(** [str(i)] for a non-negative [int]: its decimal digits. *)
Definition str_nat (i : nat) : string := NilEmpty.string_of_uint (Nat.to_uint i).

(** [enumerate(xs, start=i)] *)
Fixpoint enumerate_from {A} (i : nat) (xs : list A) : list (nat * A) :=
  match xs with
  | [] => []
  | x :: xs' => (i, x) :: enumerate_from (S i) xs'
  end.

(** [{"source": source_label, "chunk_index": i, "total_chunks": len(chunks)}] *)
Definition ingest_metadata (source_label : string) (i total : nat) : list (string * json) :=
  [("source", JStr source_label); ("chunk_index", JNum (INR i));
   ("total_chunks", JNum (INR total))].

(** The [upsert] calls of the loop of [ingest_markdown]; call [i] runs in
    environment [envs i]. *)
Definition ingest_calls (envs : nat -> Env) (source_label : string) (chunks : list string)
  : list UpsertCall :=
  map (fun '(i, chunk) =>
         mkUpsertCall (envs i) (source_label ++ "::" ++ str_nat i) chunk
           (Some (ingest_metadata source_label i (List.length chunks))) None "" false)
      (enumerate_from 0 chunks).

(** [ingest_markdown(path, source=source, chunk_size=..., overlap=...)] on a
    store whose backing file is [store_file].  [md_file] is the content of
    the Markdown file as [read_text] returns it, [None] when [path.exists()]
    is false (the message printed then is not modelled), and [path_str] is
    [str(path)].  The result is the returned count, the store and its
    backing file; [None] when [_chunk_text] runs out of fuel. *)
Definition ingest_markdown (cfg : Config) (envs : nat -> Env) (fuel : nat)
    (st : VectorStore) (store_file : option (list line)) (md_file : option string)
    (path_str source : string) (chunk_size overlap : Z)
  : option (Z * VectorStore * option (list line)) :=
  match md_file with
  | None => Some (0%Z, st, store_file)
  | Some text =>
      match _chunk_text fuel text chunk_size overlap with
      | None => None
      | Some chunks =>
          let source_label := str_or (Some source) path_str in
          let '(st', file') :=
            run_upserts cfg (ingest_calls envs source_label chunks) st store_file in
          Some (Z.of_nat (List.length chunks), st', file')
      end
  end.

(** *** Heading markers *)

(** A match of [#{1,6}\s]: one to six ['#'] and one whitespace character. *)
Definition heading_marker (m : list ascii) : Prop :=
  exists (n : nat) (c : ascii),
    (1 <= n <= 6)%nat /\ Py.is_space c = true /\ m = app (repeat "#"%char n) [c].

(** [p0 ++ m1 ++ p1 ++ ... ++ mk ++ pk] for [rest = [(m1, p1); ...; (mk, pk)]]. *)
Fixpoint interleave (p0 : list ascii) (rest : list (list ascii * list ascii))
  : list ascii :=
  match rest with
  | [] => p0
  | (m, p) :: rest' => app p0 (app m (interleave p rest'))
  end.

(** The position after [before] is a line start: [before] is empty or ends
    with a newline. *)
Definition line_start (before : list ascii) : Prop := last before newline = newline.

(** Every marker of [interleave p0 rest], preceded by [before], stands at a
    line start. *)
Fixpoint at_line_starts (before p0 : list ascii) (rest : list (list ascii * list ascii))
  : Prop :=
  match rest with
  | [] => True
  | (m, p) :: rest' =>
      line_start (app before p0) /\ at_line_starts (app before (app p0 m)) p rest'
  end.

(** What follows the piece [p0] in [interleave p0 rest]. *)
Definition after_piece (rest : list (list ascii * list ascii)) : list ascii :=
  match rest with
  | [] => []
  | (m, p) :: rest' => app m (interleave p rest')
  end.

(** No position inside a piece of [interleave p0 rest], preceded by
    [before], is a line start where [#{1,6}\s] matches: the text is cut at
    every such match. *)
Fixpoint no_marker_inside (before p0 : list ascii)
    (rest : list (list ascii * list ascii)) : Prop :=
  (forall u v, p0 = app u v -> v <> [] -> line_start (app before u) ->
     match_heading (app v (after_piece rest)) = None) /\
  match rest with
  | [] => True
  | (m, p) :: rest' => no_marker_inside (app before (app p0 m)) p rest'
  end.

(** *** Window arithmetic *)

(** The window starts of one section as the specification words them:
    starting at [0], advancing by [step = chunk_size - overlap], and
    continuing until the window would start at or past the end [n] of the
    section ([fuel] bounds the number of windows). *)
Fixpoint claimed_window_starts (fuel : nat) (n step start : Z) : list Z :=
  match fuel with
  | O => []
  | S f =>
      if (start <? n)%Z then start :: claimed_window_starts f n step (start + step)
      else []
  end.

(** The window of [chunk_size] words starting at word [s], joined. *)
Definition window (words : list string) (chunk_size s : Z) : string :=
  Py.join_space (firstn (Z.to_nat chunk_size) (skipn (Z.to_nat s) words)).

(** The number of windows of a section of [n] words: one when it fits in a
    window, otherwise one more than the number of [step]s needed to bring
    the window's end to [n], that is [1 + ceil((n - chunk_size) / step)]. *)
Definition window_count (n chunk_size overlap : Z) : Z :=
  let step := (chunk_size - overlap)%Z in
  if (n <=? chunk_size)%Z then 1%Z
  else (1 + (n - chunk_size + step - 1) / step)%Z.

(** ** Rehydration: [rehydrate] *)

Module Rehydration.

(** Exceptions the loaders can meet.  The first four are [OSError]s
    ([OSError] itself stands for one of no subclass, such as [EOVERFLOW]). *)
Inductive exn : Type :=
| FileNotFoundError
| PermissionError
| IsADirectoryError
| OSError
| ValueError
| OverflowError
| JSONDecodeError.

Definition is_OSError (e : exn) : bool :=
  match e with
  | FileNotFoundError | PermissionError | IsADirectoryError | OSError => true
  | _ => false
  end.

(** A computation that returns a value or raises. *)
Inductive result (A : Type) : Type :=
| Ok (a : A)
| Raise (e : exn).
Arguments Ok {A} a.
Arguments Raise {A} e.

Definition bind {A B} (m : result A) (k : A -> result B) : result B :=
  match m with Ok a => k a | Raise e => Raise e end.

Notation "x <- m ;; k" := (bind m (fun x => k))
  (at level 61, m at next level, right associativity).

Fixpoint mapM {A B} (f : A -> result B) (xs : list A) : result (list B) :=
  match xs with
  | [] => Ok []
  | x :: xs' => y <- f x ;; ys <- mapM f xs' ;; Ok (y :: ys)
  end.

(** A file [run-*.json] listed by [_TELEMETRY_DIR.glob]: the outcome of
    [p.stat().st_mtime] and of [json.loads(p.read_text())]. *)
Record TelemetryFile := mkTelemetryFile {
  tf_mtime : result R;
  tf_load : result json
}.

(** The outcome of every file-system operation [rehydrate] performs, and
    the clock ([datetime.now] as seconds since the epoch).  Times are whole
    seconds. *)
Record FileSystem := mkFileSystem {
  store_file : result (option (list line));
  am_exists : result bool;
  am_mtime : result Z;
  am_read : result string;
  tel_exists : result bool;
  tel_glob : list TelemetryFile;
  org_exists : result bool;
  org_load : result json;
  clock : Z
}.

(** The proleptic Gregorian year (astronomical numbering: 0 is 1 BC) of
    the second [t] since the epoch, UTC. *)
Definition year_of (t : Z) : Z :=
  let z := (t / 86400 + 719468)%Z in
  let era := (z / 146097)%Z in
  let doe := (z - era * 146097)%Z in
  let yoe := ((doe - doe / 1460 + doe / 36524 - doe / 146096) / 365)%Z in
  let doy := (doe - (365 * yoe + yoe / 4 - yoe / 100))%Z in
  let mp := ((5 * doy + 2) / 153)%Z in
  let y := (yoe + era * 400)%Z in
  if (mp <? 10)%Z then y else (y + 1)%Z.

(** [datetime.fromtimestamp(t, tz=timezone.utc)] on Linux (64-bit
    [time_t], glibc) for a modification time [t] in whole seconds: a [t]
    outside [time_t] raises [OverflowError]; [gmtime] fails with
    [EOVERFLOW], an [OSError], when the year minus 1900 does not fit a C
    [int]; a year outside 1 to 9999 raises [ValueError]. *)
Definition fromtimestamp (t : Z) : result Z :=
  if ((t <? - 2 ^ 63) || (2 ^ 63 <=? t))%Z then Raise OverflowError
  else
    let y := year_of t in
    if ((y - 1900 <? - 2 ^ 31) || (2 ^ 31 - 1 <? y - 1900))%Z then Raise OSError
    else if ((1 <=? y) && (y <=? 9999))%Z then Ok t else Raise ValueError.

Inductive warning : Type :=
| VectorStoreUnavailable (e : exn)
| ActiveMemoryAbsent
| ActiveMemoryStale (age_hours : R)
| ActiveMemoryUnreadable (e : exn).

Record ActiveMemory := mkActiveMemory {
  available : bool;
  am_content : string;
  age_hours : option R;
  am_warning : option warning
}.

Definition am_initial : ActiveMemory := mkActiveMemory false "" None None.

Definition with_warning (r : ActiveMemory) (w : warning) : ActiveMemory :=
  mkActiveMemory (available r) (am_content r) (age_hours r) (Some w).

(** The integer nearest to [y], ties to the even one. *)
Definition round_half_even (y : R) : Z :=
  let k := Int_part y in
  let d := y - IZR k in
  if Rlt_dec d (/ 2) then k
  else if Rlt_dec (/ 2) d then (k + 1)%Z
  else if Z.even k then k else (k + 1)%Z.

(** [round(x, n)] for [n >= 0]: the multiple of [10^-n] nearest to [x],
    ties to even, as Python rounds the exact value of a float. *)
Definition round_to (n : Z) (x : R) : R :=
  IZR (round_half_even (x * IZR (10 ^ n))) / IZR (10 ^ n).

(** [except OSError as exc: result["warning"] = ...]: other exceptions
    propagate. *)
Definition catch_OSError (r : ActiveMemory) (e : exn) : result ActiveMemory :=
  if is_OSError e then Ok (with_warning r (ActiveMemoryUnreadable e)) else Raise e.

(** [_load_active_memory()] with [_MEMORY_FRESHNESS_HOURS = threshold]. *)
Definition _load_active_memory (threshold : R) (fs : FileSystem)
  : result ActiveMemory :=
  ex <- am_exists fs ;;
  if negb ex then Ok (with_warning am_initial ActiveMemoryAbsent)
  else
    match am_mtime fs with
    | Raise e => catch_OSError am_initial e
    | Ok mt =>
        match fromtimestamp mt with
        | Raise e => catch_OSError am_initial e
        | Ok _ =>
            let age := IZR (clock fs - mt) / 3600 in
            let r1 := mkActiveMemory false "" (Some (round_to 2 age)) None in
            let r2 := if Rlt_dec threshold age
                      then with_warning r1 (ActiveMemoryStale age) else r1 in
            match am_read fs with
            | Raise e => catch_OSError r2 e
            | Ok c => Ok (mkActiveMemory true c (age_hours r2) (am_warning r2))
            end
        end
    end.

(** [_load_recent_telemetry(max_entries)]: [sorted] computes every key
    first, then sorts stably on descending keys; only the reading of a file
    is guarded. *)
Definition _load_recent_telemetry (max_entries : Z) (fs : FileSystem)
  : result (list json) :=
  ex <- tel_exists fs ;;
  if negb ex then Ok []
  else
    let log_files := tel_glob fs in
    keys <- mapM tf_mtime log_files ;;
    let sorted := map snd (sort_desc (combine keys log_files)) in
    Ok (flat_map (fun f => match tf_load f with Ok d => [d] | Raise _ => [] end)
                 (Py.slice_to sorted max_entries)).

(** [_load_org_index()] *)
Definition _load_org_index (fs : FileSystem) : result json :=
  ex <- org_exists fs ;;
  if negb ex then Ok (JObj [])
  else match org_load fs with Ok j => Ok j | Raise _ => Ok (JObj []) end.

Record Hit := mkHit {
  hit_score : R;
  hit_id : string;
  hit_content : string;
  hit_metadata : list (string * json)
}.

Record ContextBundle := mkContextBundle {
  vector_hits : list Hit;
  active_memory : option ActiveMemory;
  recent_runs : list json;
  org_repos : json;
  warnings : list warning;
  rehydrated_at : string;
  bundle_query : string
}.

Definition to_hit (p : R * Document) : Hit :=
  let '(score, doc) := p in
  mkHit (round_to 4 score) (id doc)
        (string_of_list_ascii (Py.slice_to (list_ascii_of_string (content doc)) 400))
        (metadata doc).

(** [rehydrate(query, top_k=..., include_active_memory=...,
    include_telemetry=..., include_org_index=..., store=...)]; [envs] is
    what a [VectorStore] built here sees while loading, [env] what [query]
    sees.  An [ActiveMemory] of [None] is the empty dict. *)
Definition rehydrate (cfg : Config) (env : Env) (envs : nat -> Env)
    (threshold : R) (fs : FileSystem) (q : string) (top_k : Z)
    (include_active_memory include_telemetry include_org_index : bool)
    (store : option VectorStore) : result ContextBundle :=
  (* 1. vector store, inside [try ... except Exception] *)
  let vec :=
    vs <- match store with
          | Some s => Ok s
          | None => file <- store_file fs ;; Ok (new_store envs file)
          end ;;
    Ok (map to_hit (query cfg env vs q top_k)) in
  let '(vector_hits_, warnings0) :=
    match vec with
    | Ok hits => (hits, [])
    | Raise e => ([], [VectorStoreUnavailable e])
    end in
  (* 2. ACTIVE_MEMORY.md *)
  am <- (if include_active_memory
         then r <- _load_active_memory threshold fs ;; Ok (Some r)
         else Ok None) ;;
  let warnings1 :=
    match am with
    | Some r => match am_warning r with
                | Some w => app warnings0 [w]
                | None => warnings0
                end
    | None => warnings0
    end in
  (* 3. telemetry *)
  runs <- (if include_telemetry then _load_recent_telemetry 5 fs else Ok []) ;;
  (* 4. org index *)
  repos <- (if include_org_index
            then idx <- _load_org_index fs ;;
                 Ok (match idx with
                     | JObj fields =>
                         match Py.lookup "repositories" fields with
                         | Some v => v
                         | None => JArr []
                         end
                     | JArr xs => JArr xs
                     | _ => JArr []
                     end)
            else Ok (JArr [])) ;;
  Ok (mkContextBundle vector_hits_ am runs repos warnings1 (now env) q).

End Rehydration.

(** ** Concrete inputs used by the witnesses and counterexamples *)

Module Fixtures.

Definition cfg_tfidf : Config := mkConfig "tfidf".

Definition env0 : Env := mkEnv "2026-01-01T00:00:00+00:00" "uuid-0" "" None.

Definition doc_a : Document :=
  mkDocument "doc-a" "autonomous agents govern policy"
    (embed_text cfg_tfidf env0 "autonomous agents govern policy") [] "t0" "c0" "".

Definition doc_b : Document :=
  mkDocument "doc-b" "weather forecast sunny today"
    (embed_text cfg_tfidf env0 "weather forecast sunny today") [] "t1" "c1" "".

Definition store_ab : VectorStore := mkVectorStore [("doc-a", doc_a); ("doc-b", doc_b)].

(** [doc_a] with a dense vector, as the [openai] backend would store it. *)
Definition doc_a_dense : Document :=
  mkDocument "doc-a" "autonomous agents govern policy"
    (mkEmbedding "tfidf" (_tfidf_embed "autonomous agents govern policy")
       (Some [1; 0; 0])) [] "t0" "c0" "".

Definition store_ab_dense : VectorStore :=
  mkVectorStore [("doc-a", doc_a_dense); ("doc-b", doc_b)].

(** [doc_a] with the metadata [{"source": "notes"}]. *)
Definition doc_a_notes : Document :=
  mkDocument "doc-a" "autonomous agents govern policy"
    (embed_text cfg_tfidf env0 "autonomous agents govern policy")
    [("source", JStr "notes")] "t0" "c0" "".

(** [upsert("mem-001", "hello", skip_embed=True)]. *)
Definition call_mem1 : UpsertCall :=
  mkUpsertCall env0 "mem-001" "hello" None None "" true.

Definition store_notes : VectorStore :=
  mkVectorStore [("doc-a", doc_a_notes); ("doc-b", doc_b)].

(** A checkout where [.infinity/ACTIVE_MEMORY.md] and [ORG_REPO_INDEX.json]
    are absent and [logs/telemetry/] holds one entry [run-1.json] that is a
    dangling symbolic link: [glob] lists it, [stat] and [read_text] raise
    [FileNotFoundError]. *)
Definition fs_dangling_run : Rehydration.FileSystem :=
  {| Rehydration.store_file := Rehydration.Ok None;
     Rehydration.am_exists := Rehydration.Ok false;
     Rehydration.am_mtime := Rehydration.Ok 0%Z;
     Rehydration.am_read := Rehydration.Ok "";
     Rehydration.tel_exists := Rehydration.Ok true;
     Rehydration.tel_glob :=
       [Rehydration.mkTelemetryFile (Rehydration.Raise Rehydration.FileNotFoundError)
                                    (Rehydration.Raise Rehydration.FileNotFoundError)];
     Rehydration.org_exists := Rehydration.Ok false;
     Rehydration.org_load := Rehydration.Ok (JObj []);
     Rehydration.clock := 1790000000%Z |}.

(** A checkout whose only peculiarity is the modification time of
    [ACTIVE_MEMORY.md], in the year 11476. *)
Definition fs_far_future_snapshot : Rehydration.FileSystem :=
  {| Rehydration.store_file := Rehydration.Ok None;
     Rehydration.am_exists := Rehydration.Ok true;
     Rehydration.am_mtime := Rehydration.Ok 300000000000%Z;
     Rehydration.am_read := Rehydration.Ok "# state";
     Rehydration.tel_exists := Rehydration.Ok false;
     Rehydration.tel_glob := [];
     Rehydration.org_exists := Rehydration.Ok false;
     Rehydration.org_load := Rehydration.Ok (JObj []);
     Rehydration.clock := 1790000000%Z |}.

(** A checkout whose [ACTIVE_MEMORY.md], two hours old, cannot be read:
    [read_text] raises [PermissionError]. *)
Definition fs_unreadable_snapshot : Rehydration.FileSystem :=
  {| Rehydration.store_file := Rehydration.Ok None;
     Rehydration.am_exists := Rehydration.Ok true;
     Rehydration.am_mtime := Rehydration.Ok 1789992800%Z;
     Rehydration.am_read := Rehydration.Raise Rehydration.PermissionError;
     Rehydration.tel_exists := Rehydration.Ok false;
     Rehydration.tel_glob := [];
     Rehydration.org_exists := Rehydration.Ok false;
     Rehydration.org_load := Rehydration.Ok (JObj []);
     Rehydration.clock := 1790000000%Z |}.

End Fixtures.

(** * Properties *)

(** ** Sanity checks of the chunker *)

Example chunk_ex1 :
  _chunk_text 10 "# Title
body text" 512 64 = Some ["Title body text"].
Proof. vm_compute. reflexivity. Qed.
Example chunk_ex2 :
  _chunk_text 10 "a b c d e f g h i j" 5 2 = Some ["a b c d e"; "d e f g h"; "g h i j"].
Proof. vm_compute. reflexivity. Qed.
Example chunk_ex3 :
  heading_split "x
## A
####### B
#
y" = ["x
"; "A
####### B
"; "y"].
Proof. vm_compute. reflexivity. Qed.

(** ** Dictionaries *)

Section Dict.
Context {V : Type}.

Lemma lookup_dict_set_same (k : string) (v : V) d :
  Py.lookup k (Py.dict_set k v d) = Some v.
Proof.
  induction d as [|[k' v'] d IH]; simpl.
  - destruct (string_dec k k); congruence.
  - destruct (string_dec k k') as [->|Hne]; simpl.
    + destruct (string_dec k' k'); congruence.
    + destruct (string_dec k k'); [contradiction | exact IH].
Qed.

Lemma lookup_dict_set_other (k k' : string) (v : V) d :
  k <> k' -> Py.lookup k (Py.dict_set k' v d) = Py.lookup k d.
Proof.
  intros Hne. induction d as [|[k0 v0] d IH]; simpl.
  - destruct (string_dec k k'); congruence.
  - destruct (string_dec k' k0) as [->|Hne0]; simpl.
    + destruct (string_dec k k0); congruence.
    + destruct (string_dec k k0); [reflexivity | exact IH].
Qed.

Lemma lookup_None_iff (k : string) (d : list (string * V)) :
  Py.lookup k d = None <-> ~ In k (map fst d).
Proof.
  induction d as [|[k0 v0] d IH]; simpl.
  - tauto.
  - destruct (string_dec k k0) as [->|Hne].
    + split; [discriminate | intros H; exfalso; apply H; left; reflexivity].
    + rewrite IH. split; intros H; [intros [E|E]; [congruence | tauto] | tauto].
Qed.

Lemma lookup_In (k : string) (v : V) d :
  Py.lookup k d = Some v -> In (k, v) d.
Proof.
  induction d as [|[k0 v0] d IH]; simpl; [discriminate|].
  destruct (string_dec k k0) as [->|]; [intros [= ->]; left; reflexivity|].
  intros H; right; exact (IH H).
Qed.

Lemma In_lookup (k : string) (v : V) d :
  NoDup (map fst d) -> In (k, v) d -> Py.lookup k d = Some v.
Proof.
  induction d as [|[k0 v0] d IH]; simpl; [tauto|].
  intros Hnd [E|Hin]; inversion Hnd as [|? ? Hnotin Hnd']; subst.
  - inversion E; subst. destruct (string_dec k k); congruence.
  - destruct (string_dec k k0) as [->|]; [|exact (IH Hnd' Hin)].
    exfalso. apply Hnotin. apply (in_map fst) in Hin. exact Hin.
Qed.

Lemma keys_dict_set (k : string) (v : V) d :
  map fst (Py.dict_set k v d) =
  if in_dec string_dec k (map fst d) then map fst d else app (map fst d) [k].
Proof.
  induction d as [|[k0 v0] d IH]; [reflexivity|].
  cbn [Py.dict_set map fst].
  destruct (in_dec string_dec k (k0 :: map fst d)) as [Hi'|Hi'];
    destruct (string_dec k k0) as [->|Hne]; cbn [map fst]; try reflexivity.
  - rewrite IH. destruct Hi' as [E|Hi]; [congruence|].
    destruct (in_dec string_dec k (map fst d)); [reflexivity | contradiction].
  - exfalso; apply Hi'; left; reflexivity.
  - rewrite IH. destruct (in_dec string_dec k (map fst d)) as [Hi|]; [|reflexivity].
    exfalso; apply Hi'; right; exact Hi.
Qed.

Lemma NoDup_dict_set (k : string) (v : V) d :
  NoDup (map fst d) -> NoDup (map fst (Py.dict_set k v d)).
Proof.
  intros Hnd. rewrite keys_dict_set.
  destruct (in_dec string_dec k (map fst d)) as [_|Hi]; [exact Hnd|].
  apply NoDup_app; [exact Hnd | repeat constructor; simpl; tauto |].
  intros x Hx [E|[]]; subst; contradiction.
Qed.

Lemma lookup_map_values {W} (f : V -> W) (k : string) (d : list (string * V)) :
  Py.lookup k (map (fun '(k', v) => (k', f v)) d) = option_map f (Py.lookup k d).
Proof.
  induction d as [|[k0 v0] d IH]; simpl; [reflexivity|].
  destruct (string_dec k k0); [reflexivity | exact IH].
Qed.

Lemma keys_map_values {W} (f : V -> W) (d : list (string * V)) :
  map fst (map (fun '(k', v) => (k', f v)) d) = map fst d.
Proof. induction d as [|[k0 v0] d IH]; simpl; congruence. Qed.

End Dict.

(** ** The counter *)

Definition cnt_of (acc : list (string * nat)) (t : string) : nat :=
  match Py.lookup t acc with Some c => c | None => 0%nat end.

Lemma counter_fold_lookup ts acc t :
  (forall t' c, Py.lookup t' acc = Some c -> (0 < c)%nat) ->
  Py.lookup t (fold_left counter_add ts acc) =
  let n := (cnt_of acc t + count_occ string_dec ts t)%nat in
  if (n =? 0)%nat then None else Some n.
Proof.
  revert acc. induction ts as [|t0 ts IH]; intros acc Hpos; cbn [fold_left].
  - cbn [count_occ]. unfold cnt_of. rewrite Nat.add_0_r.
    destruct (Py.lookup t acc) as [c|] eqn:E; [|reflexivity].
    apply Hpos in E. destruct c; [lia | reflexivity].
  - assert (Hpos' : forall t' c, Py.lookup t' (counter_add acc t0) = Some c -> (0 < c)%nat).
    { intros t' c. unfold counter_add.
      destruct (string_dec t' t0) as [->|Hne].
      - destruct (Py.lookup t0 acc); rewrite lookup_dict_set_same; intros [= <-]; lia.
      - destruct (Py.lookup t0 acc); rewrite lookup_dict_set_other by exact Hne;
          apply Hpos. }
    rewrite (IH _ Hpos'). unfold cnt_of, counter_add.
    destruct (string_dec t0 t) as [->|Hne].
    + rewrite count_occ_cons_eq by reflexivity.
      destruct (Py.lookup t acc) eqn:E; rewrite lookup_dict_set_same; simpl;
        rewrite ?Nat.add_succ_r; reflexivity.
    + rewrite count_occ_cons_neq by exact Hne.
      assert (t <> t0) by congruence.
      destruct (Py.lookup t0 acc); rewrite lookup_dict_set_other by assumption;
        reflexivity.
Qed.

Lemma Counter_lookup ts t :
  Py.lookup t (Counter ts) =
  if (count_occ string_dec ts t =? 0)%nat then None
  else Some (count_occ string_dec ts t).
Proof.
  unfold Counter. rewrite counter_fold_lookup by (simpl; discriminate).
  reflexivity.
Qed.

Lemma Counter_NoDup ts : NoDup (map fst (Counter ts)).
Proof.
  unfold Counter. generalize (@NoDup_nil string).
  change (@nil string) with (map fst (@nil (string * nat))) at 1.
  generalize (@nil (string * nat)).
  induction ts as [|t ts IH]; intros acc Hnd; simpl; [exact Hnd|].
  apply IH. unfold counter_add.
  destruct (Py.lookup t acc); apply NoDup_dict_set; exact Hnd.
Qed.

Lemma Counter_pos ts : Forall (fun p => (0 < snd p)%nat) (Counter ts).
Proof.
  apply Forall_forall. intros [t c] Hin. simpl.
  apply In_lookup in Hin; [|apply Counter_NoDup].
  rewrite Counter_lookup in Hin.
  destruct (count_occ string_dec ts t =? 0)%nat eqn:E; [discriminate|].
  injection Hin as <-. apply Nat.eqb_neq in E. lia.
Qed.

(** ** C1: the sparse embedding *)

(** C1. For every text, [_tfidf_embed] returns exactly the mapping that
    sends each token [t] of [_tokenize text] (lower-cased matches of
    [[a-zA-Z0-9_-]+] longer than one character) to
    [(c(t)/N) * ln(1 + N/c(t))], where [c(t)] is the number of occurrences of
    [t] and [N] the number of tokens: its keys are distinct, a key is present
    exactly when it is a token, and an empty token list gives the empty
    mapping. *)
Theorem tfidf_embed_weights (text : string) :
  let tokens := _tokenize text in
  let N := List.length tokens in
  NoDup (map fst (_tfidf_embed text)) /\
  (forall t, Py.lookup t (_tfidf_embed text) =
     let c := count_occ string_dec tokens t in
     if (c =? 0)%nat then None
     else Some (INR c / INR N * ln (1 + INR N / INR c))) /\
  (tokens = [] -> _tfidf_embed text = []).
Proof.
  cbv zeta. unfold _tfidf_embed.
  destruct (_tokenize text) as [|t0 ts] eqn:Etok.
  - split; [constructor|]. split; [reflexivity | reflexivity].
  - split; [|split; [|discriminate]].
    + rewrite !keys_map_values. apply Counter_NoDup.
    + intros t.
      rewrite (lookup_map_values (fun tf_val => tf_val * log1p (1 / tf_val))).
      rewrite (lookup_map_values (fun count => INR count / INR (List.length (t0 :: ts)))).
      rewrite Counter_lookup.
      destruct (count_occ string_dec (t0 :: ts) t =? 0)%nat eqn:Ec; [reflexivity|].
      apply Nat.eqb_neq in Ec. unfold option_map. cbv beta. unfold log1p.
      assert (HN : INR (List.length (t0 :: ts)) <> 0) by (apply not_0_INR; simpl; lia).
      assert (Hc : INR (count_occ string_dec (t0 :: ts) t) <> 0) by (apply not_0_INR; exact Ec).
      set (c := INR (count_occ string_dec (t0 :: ts) t)) in *.
      set (N := INR (List.length (t0 :: ts))) in *.
      replace (1 / (c / N)) with (N / c) by (field; split; assumption).
      reflexivity.
Qed.

(** ** C3: cosine similarity *)

Section Sums.
Context {A : Type}.

Lemma sumR_le (f g : A -> R) (l : list A) :
  (forall x, In x l -> f x <= g x) -> sumR (map f l) <= sumR (map g l).
Proof.
  induction l as [|x l IH]; simpl; intros H; [lra|].
  apply Rplus_le_compat; [apply H; left; reflexivity | apply IH; intros; apply H; right; assumption].
Qed.

Lemma sumR_zero (l : list A) : sumR (map (fun _ : A => 0) l) = 0.
Proof. induction l as [|x l IH]; simpl; [reflexivity | rewrite IH; ring]. Qed.

Lemma sumR_nonneg (f : A -> R) (l : list A) :
  (forall x, In x l -> 0 <= f x) -> 0 <= sumR (map f l).
Proof.
  intros H. rewrite <- (sumR_zero l). apply sumR_le. exact H.
Qed.

Lemma sumR_scale (c : R) (f : A -> R) (l : list A) :
  sumR (map (fun x => c * f x) l) = c * sumR (map f l).
Proof. induction l as [|x l IH]; simpl; [ring | rewrite IH; ring]. Qed.

Lemma sumR_plus (f g : A -> R) (l : list A) :
  sumR (map (fun x => f x + g x) l) = sumR (map f l) + sumR (map g l).
Proof. induction l as [|x l IH]; simpl; [ring | rewrite IH; ring]. Qed.

Lemma sumR_perm (f : A -> R) (l l' : list A) :
  Permutation l l' -> sumR (map f l) = sumR (map f l').
Proof.
  induction 1; simpl; try reflexivity; try lra.
Qed.

End Sums.

Lemma has_key_iff (b : sparse) k : has_key b k = true <-> In k (map fst b).
Proof.
  unfold has_key. destruct (Py.lookup k b) eqn:E.
  - split; [intros _ | reflexivity].
    apply lookup_In in E. apply (in_map fst) in E. exact E.
  - apply lookup_None_iff in E. split; [discriminate | contradiction].
Qed.

Lemma common_keys_NoDup a b : NoDup (map fst a) -> NoDup (common_keys a b).
Proof. intros H. apply NoDup_filter. exact H. Qed.

Lemma common_keys_In a b k :
  In k (common_keys a b) <-> In k (map fst a) /\ In k (map fst b).
Proof. unfold common_keys. rewrite filter_In, has_key_iff. tauto. Qed.

Lemma common_keys_perm a b :
  NoDup (map fst a) -> NoDup (map fst b) ->
  Permutation (common_keys a b) (common_keys b a).
Proof.
  intros Ha Hb. apply NoDup_Permutation; try (apply common_keys_NoDup; assumption).
  intros k. rewrite !common_keys_In. tauto.
Qed.

Lemma get_nonneg a k : Forall (fun p => 0 <= snd p) a -> 0 <= get a k.
Proof.
  intros H. unfold get. destruct (Py.lookup k a) eqn:E; [|lra].
  apply lookup_In in E. rewrite Forall_forall in H. exact (H _ E).
Qed.

(** The squares of the entries kept by a filter of the keys sum to at most
    the squared magnitude. *)
Lemma sum_sq_filter_keys (p : string -> bool) (a : sparse) :
  NoDup (map fst a) ->
  sumR (map (fun k => get a k * get a k) (filter p (map fst a)))
  <= sumR (map (fun '(_, v) => v * v) a).
Proof.
  induction a as [|[k v] a IH]; simpl; intros Hnd; [lra|].
  inversion Hnd as [|? ? Hnotin Hnd']; subst.
  assert (Hrest : sumR (map (fun k0 => get ((k, v) :: a) k0 * get ((k, v) :: a) k0)
                            (filter p (map fst a)))
                  = sumR (map (fun k0 => get a k0 * get a k0) (filter p (map fst a)))).
  { f_equal. apply map_ext_in. intros k0 Hk0. apply filter_In in Hk0.
    unfold get; simpl. destruct (string_dec k0 k) as [->|]; [tauto | reflexivity]. }
  destruct (p k); simpl.
  - unfold get at 1 2; simpl. destruct (string_dec k k); [|congruence].
    rewrite Hrest. specialize (IH Hnd'). lra.
  - rewrite Hrest. specialize (IH Hnd'). pose proof (Rle_0_sqr v). unfold Rsqr in *. lra.
Qed.

Lemma sum_sq_nonneg (a : sparse) : 0 <= sumR (map (fun '(_, v) => v * v) a).
Proof.
  apply sumR_nonneg. intros [k v] _. pose proof (Rle_0_sqr v). unfold Rsqr in *. lra.
Qed.

Lemma magnitude_sq (a : sparse) :
  magnitude a * magnitude a = sumR (map (fun '(_, v) => v * v) a).
Proof. unfold magnitude. apply sqrt_sqrt, sum_sq_nonneg. Qed.

(** Cauchy-Schwarz over the common keys, without division:
    [2AB x y <= B^2 x^2 + A^2 y^2] summed over the common keys. *)
Lemma dot_le_magnitudes (a b : sparse) :
  NoDup (map fst a) -> NoDup (map fst b) ->
  0 < magnitude a -> 0 < magnitude b ->
  sumR (map (fun k => get a k * get b k) (common_keys a b))
  <= magnitude a * magnitude b.
Proof.
  intros Ha Hb HA HB.
  set (A := magnitude a) in *. set (B := magnitude b) in *.
  set (dot := sumR (map (fun k => get a k * get b k) (common_keys a b))).
  assert (Hterm : sumR (map (fun k => 2 * A * B * (get a k * get b k)) (common_keys a b))
                  <= sumR (map (fun k => B * B * (get a k * get a k)
                                        + A * A * (get b k * get b k)) (common_keys a b))).
  { apply sumR_le. intros k _.
    pose proof (Rle_0_sqr (B * get a k - A * get b k)). unfold Rsqr in *. nra. }
  rewrite sumR_scale, sumR_plus, !sumR_scale in Hterm. fold dot in Hterm.
  assert (HSa := sum_sq_filter_keys (has_key b) a Ha).
  assert (HSb := sum_sq_filter_keys (has_key a) b Hb).
  change (filter (has_key b) (map fst a)) with (common_keys a b) in HSa.
  change (filter (has_key a) (map fst b)) with (common_keys b a) in HSb.
  rewrite (sumR_perm (fun k => get b k * get b k) _ _ (common_keys_perm b a Hb Ha)) in HSb.
  rewrite <- magnitude_sq in HSa, HSb. fold A in HSa. fold B in HSb.
  assert (HAB : 0 < A * B) by nra.
  assert (2 * A * B * dot <= 2 * A * B * (A * B)) by nra.
  nra.
Qed.

Lemma cosine_common_empty a b : common_keys a b = [] -> _cosine_sparse a b = 0.
Proof. intros H. unfold _cosine_sparse. rewrite H. reflexivity. Qed.

Lemma cosine_zero_cases a b :
  common_keys a b = [] \/ magnitude a = 0 \/ magnitude b = 0 ->
  _cosine_sparse a b = 0.
Proof.
  unfold _cosine_sparse. intros H.
  destruct (common_keys a b) as [|k ks]; [reflexivity|].
  destruct (Req_EM_T (magnitude a) 0); [reflexivity|].
  destruct (Req_EM_T (magnitude b) 0); [reflexivity|].
  exfalso. destruct H as [H|[H|H]]; [discriminate | contradiction | contradiction].
Qed.

Lemma cosine_bounds a b :
  NoDup (map fst a) -> NoDup (map fst b) ->
  Forall (fun p => 0 <= snd p) a -> Forall (fun p => 0 <= snd p) b ->
  0 <= _cosine_sparse a b <= 1.
Proof.
  intros Ha Hb Pa Pb.
  assert (Hdot := dot_le_magnitudes a b Ha Hb).
  assert (Hdot0 : 0 <= sumR (map (fun k => get a k * get b k) (common_keys a b))).
  { apply sumR_nonneg. intros k _.
    apply Rmult_le_pos; apply get_nonneg; assumption. }
  unfold _cosine_sparse.
  destruct (common_keys a b) as [|k ks] eqn:Ec; [lra|].
  destruct (Req_EM_T (magnitude a) 0) as [|HA]; [lra|].
  destruct (Req_EM_T (magnitude b) 0) as [|HB]; [lra|].
  pose proof (sqrt_pos (sumR (map (fun '(_, v) => v * v) a))) as HA0.
  pose proof (sqrt_pos (sumR (map (fun '(_, v) => v * v) b))) as HB0.
  fold (magnitude a) in HA0. fold (magnitude b) in HB0.
  assert (HA' : 0 < magnitude a) by lra.
  assert (HB' : 0 < magnitude b) by lra.
  specialize (Hdot HA' HB').
  set (dot := sumR (map (fun k0 => get a k0 * get b k0) (k :: ks))) in *.
  set (A := magnitude a) in *. set (B := magnitude b) in *.
  assert (HAB : 0 < A * B) by nra.
  assert (Hq : dot / (A * B) * (A * B) = dot) by (field; lra).
  split.
  - unfold Rdiv. apply Rmult_le_pos; [exact Hdot0 | left; apply Rinv_0_lt_compat; exact HAB].
  - set (qv := dot / (A * B)) in *. nra.
Qed.

Lemma tfidf_embed_NoDup text : NoDup (map fst (_tfidf_embed text)).
Proof.
  unfold _tfidf_embed. destruct (_tokenize text); [constructor|].
  rewrite !keys_map_values. apply Counter_NoDup.
Qed.

Lemma tfidf_weight_pos (c n : nat) :
  (0 < c)%nat -> (0 < n)%nat ->
  0 < INR c / INR n * log1p (1 / (INR c / INR n)).
Proof.
  intros Hc Hn. apply lt_0_INR in Hc. apply lt_0_INR in Hn.
  assert (Htf : 0 < INR c / INR n) by (apply Rdiv_lt_0_compat; assumption).
  apply Rmult_lt_0_compat; [exact Htf|].
  unfold log1p. rewrite <- ln_1. apply ln_increasing; [lra|].
  assert (0 < 1 / (INR c / INR n)) by (apply Rdiv_lt_0_compat; lra).
  lra.
Qed.

Lemma tfidf_embed_nonneg text : Forall (fun p => 0 <= snd p) (_tfidf_embed text).
Proof.
  unfold _tfidf_embed. destruct (_tokenize text) as [|t0 ts]; [constructor|].
  apply Forall_map. apply Forall_map.
  apply (Forall_impl _ (P := fun p => (0 < snd p)%nat)); [|apply Counter_pos].
  intros [k c] Hc. cbn [snd] in *. left.
  apply (tfidf_weight_pos c (List.length (t0 :: ts))); [exact Hc | simpl; lia].
Qed.

Lemma doc_embedding_sparse_ok cfg env skip c :
  NoDup (map fst (sparse_vec (doc_embedding cfg env skip c))) /\
  Forall (fun p => 0 <= snd p) (sparse_vec (doc_embedding cfg env skip c)).
Proof.
  unfold doc_embedding. destruct skip; simpl.
  - split; constructor.
  - split; [apply tfidf_embed_NoDup | apply tfidf_embed_nonneg].
Qed.

(** C3. For every query text and every document stored by [upsert] (its
    sparse vector is [_tfidf_embed content], or empty with [skip_embed]), the
    cosine similarity of their sparse vectors lies in [[0, 1]], and it is [0]
    when the vectors share no term or either has magnitude zero. *)
Theorem cosine_query_document_in_unit_interval (cfg : Config) (env env' : Env)
    (query_text content_ : string) (skip_embed : bool) :
  let q := sparse_vec (embed_text cfg env query_text) in
  let d := sparse_vec (doc_embedding cfg env' skip_embed content_) in
  (0 <= _cosine_sparse q d <= 1) /\
  (common_keys q d = [] \/ magnitude q = 0 \/ magnitude d = 0 ->
   _cosine_sparse q d = 0).
Proof.
  cbv zeta. split; [|apply cosine_zero_cases].
  destruct (doc_embedding_sparse_ok cfg env' skip_embed content_) as [Hd Pd].
  apply cosine_bounds; [apply tfidf_embed_NoDup | exact Hd | apply tfidf_embed_nonneg | exact Pd].
Qed.

(** ** C2: ranking in [query] *)

Definition desc {A} (x y : R * A) : Prop := fst y <= fst x.

(** The elements of [l] whose score is [r], in order. *)
Definition filter_score {A} (r : R) (l : list (R * A)) : list (R * A) :=
  filter (fun p => if Req_EM_T (fst p) r then true else false) l.

Section Sort.
Context {A : Type}.

Lemma insert_desc_perm (x : R * A) l : Permutation (insert_desc x l) (x :: l).
Proof.
  induction l as [|y l IH]; simpl; [reflexivity|].
  destruct (Rlt_dec (fst y) (fst x)); [reflexivity|].
  rewrite IH. apply perm_swap.
Qed.

Lemma sort_desc_fold_perm (l acc : list (R * A)) :
  Permutation (fold_left (fun acc x => insert_desc x acc) l acc) (app l acc).
Proof.
  revert acc. induction l as [|x l IH]; intros acc; simpl; [reflexivity|].
  rewrite IH, insert_desc_perm. symmetry. apply Permutation_middle.
Qed.

Lemma sort_desc_perm (l : list (R * A)) : Permutation (sort_desc l) l.
Proof. unfold sort_desc. rewrite sort_desc_fold_perm, app_nil_r. reflexivity. Qed.

Lemma insert_desc_HdRel (x y : R * A) l :
  HdRel desc y l -> desc y x -> HdRel desc y (insert_desc x l).
Proof.
  intros H Hyx. destruct l as [|z l]; simpl; [constructor; exact Hyx|].
  destruct (Rlt_dec (fst z) (fst x)); constructor; [exact Hyx|].
  inversion H; assumption.
Qed.

Lemma insert_desc_sorted (x : R * A) l :
  Sorted desc l -> Sorted desc (insert_desc x l).
Proof.
  induction l as [|y l IH]; simpl; intros Hs; [repeat constructor|].
  destruct (Rlt_dec (fst y) (fst x)) as [Hlt|Hnlt].
  - constructor; [exact Hs | constructor; unfold desc; lra].
  - inversion Hs as [|? ? Hs' Hhd]; subst.
    constructor; [exact (IH Hs')|].
    apply insert_desc_HdRel; [exact Hhd | unfold desc; lra].
Qed.

Lemma sort_desc_sorted (l : list (R * A)) : Sorted desc (sort_desc l).
Proof.
  unfold sort_desc. generalize (@Sorted_nil _ (@desc A)).
  generalize (@nil (R * A)).
  induction l as [|x l IH]; intros acc Hs; simpl; [exact Hs|].
  apply IH, insert_desc_sorted, Hs.
Qed.

Lemma desc_trans : RelationClasses.Transitive (@desc A).
Proof. intros x y z; unfold desc; lra. Qed.

Lemma insert_desc_filter (r : R) (x : R * A) l :
  Sorted desc l ->
  filter_score r (insert_desc x l) =
  app (filter_score r l) (if Req_EM_T (fst x) r then [x] else []).
Proof.
  induction l as [|y l IH]; intros Hs; cbn [insert_desc].
  - unfold filter_score; simpl. destruct (Req_EM_T (fst x) r); reflexivity.
  - destruct (Rlt_dec (fst y) (fst x)) as [Hlt|Hnlt].
    + assert (Hall : Forall (fun p => fst p <= fst y) (y :: l)).
      { apply Sorted_StronglySorted in Hs; [|exact desc_trans].
        inversion Hs as [|? ? _ Hf]; subst. constructor; [lra|].
        eapply Forall_impl; [|exact Hf]. intros p Hp; exact Hp. }
      (* every element of [y :: l] scores below [x] *)
      assert (Hnil : fst x = r -> filter_score r (y :: l) = []).
      { intros Ex. unfold filter_score.
        rewrite Forall_forall in Hall. clear -Hall Hlt Ex.
        induction (y :: l) as [|p ps IHps]; [reflexivity|]. simpl.
        destruct (Req_EM_T (fst p) r).
        - specialize (Hall p (or_introl eq_refl)). lra.
        - apply IHps. intros p' Hp'. apply Hall. right. exact Hp'. }
      unfold filter_score at 1.
      change (filter ?f (x :: ?t)) with (if f x then x :: filter f t else filter f t).
      cbv beta. fold (filter_score r (y :: l)).
      destruct (Req_EM_T (fst x) r) as [Ex|Nx].
      * rewrite (Hnil Ex). reflexivity.
      * rewrite app_nil_r. reflexivity.
    + inversion Hs as [|? ? Hs' _]; subst. unfold filter_score in *. simpl.
      rewrite (IH Hs'). destruct (Req_EM_T (fst y) r); reflexivity.
Qed.

Lemma sort_desc_filter (r : R) (l : list (R * A)) :
  filter_score r (sort_desc l) = filter_score r l.
Proof.
  unfold sort_desc.
  assert (H : forall acc, Sorted desc acc ->
            filter_score r (fold_left (fun acc x => insert_desc x acc) l acc)
            = app (filter_score r acc) (filter_score r l)).
  { induction l as [|x l IH]; intros acc Hs; simpl.
    - rewrite app_nil_r. reflexivity.
    - rewrite IH by (apply insert_desc_sorted, Hs).
      rewrite insert_desc_filter by exact Hs.
      unfold filter_score at 3. simpl.
      destruct (Req_EM_T (fst x) r); simpl; rewrite <- app_assoc; reflexivity. }
  rewrite H by constructor. reflexivity.
Qed.

Lemma slice_to_nonneg (l : list A) (k : Z) :
  (0 <= k)%Z -> Py.slice_to l k = firstn (Z.to_nat k) l.
Proof.
  intros Hk. unfold Py.slice_to, Py.slice, Py.slice_bound.
  replace (0 <? 0)%Z with false by reflexivity.
  destruct (k <? 0)%Z eqn:E; [apply Z.ltb_lt in E; lia|].
  replace (Z.max 0 (Z.min 0 (Z.of_nat (List.length l)))) with 0%Z by lia.
  change (Z.to_nat 0) with 0%nat. rewrite skipn_O.
  destruct (Z.le_gt_cases k (Z.of_nat (List.length l))) as [Hle|Hgt].
  - rewrite Z.min_l by exact Hle. rewrite Z.max_r by exact Hk.
    rewrite Z.sub_0_r. reflexivity.
  - rewrite Z.min_r by lia. rewrite Z.max_r by lia. rewrite Z.sub_0_r.
    rewrite Nat2Z.id. rewrite firstn_all.
    rewrite firstn_all2; [reflexivity | lia].
Qed.

End Sort.

Lemma scored_candidates_length cfg env st q :
  List.length (scored_candidates cfg env st q) = List.length (_index st).
Proof. unfold scored_candidates. rewrite !length_map. reflexivity. Qed.

Lemma query_empty_store cfg env st q k :
  _index st = [] -> query cfg env st q k = [].
Proof. intros H. unfold query. rewrite H. reflexivity. Qed.

(** With [top_k = -1], Python's slice [scored[:-1]] drops the last entry. *)
Lemma query_minus_one_length cfg env st q :
  _index st <> [] ->
  List.length (query cfg env st q (-1)) = (List.length (_index st) - 1)%nat.
Proof.
  intros Hne. unfold query.
  destruct (_index st) as [|e es] eqn:E; [contradiction|]. rewrite <- E.
  unfold Py.slice_to, Py.slice, Py.slice_bound.
  rewrite (Permutation_length (sort_desc_perm _)), scored_candidates_length.
  set (n := List.length (_index st)).
  assert (Hn : (1 <= n)%nat) by (unfold n; rewrite E; simpl; lia).
  replace ((0 <? 0)%Z) with false by reflexivity.
  replace ((-1 <? 0)%Z) with true by reflexivity.
  replace (Z.max 0 (Z.min 0 (Z.of_nat n))) with 0%Z by lia.
  replace (Z.max 0 (Z.min (-1 + Z.of_nat n) (Z.of_nat n)) - 0)%Z
    with (Z.of_nat (n - 1)) by lia.
  rewrite Nat2Z.id. change (Z.to_nat 0) with 0%nat. rewrite skipn_O.
  rewrite length_firstn, (Permutation_length (sort_desc_perm _)), scored_candidates_length.
  fold n. lia.
Qed.

(** C2 (counterexample).  [top_k] is a Python [int]; with [top_k = -1] the
    two-document store [store_ab] yields one pair, more than [top_k]. *)
Lemma query_negative_top_k_counterexample :
  Z.of_nat (List.length (query Fixtures.cfg_tfidf Fixtures.env0 Fixtures.store_ab
                           "autonomous policy" (-1))) = 1%Z /\
  ~ (Z.of_nat (List.length (query Fixtures.cfg_tfidf Fixtures.env0 Fixtures.store_ab
                              "autonomous policy" (-1))) <= -1)%Z.
Proof.
  rewrite query_minus_one_length by discriminate. simpl. lia.
Qed.

(** C2 (amended).  For every store, query text and [top_k >= 0], [query]
    returns the first [top_k] entries of a ranking of the scored candidates,
    hence at most [top_k] pairs; the ranking is a permutation of all
    candidates, sorted by descending score, and stable: for every score
    value, the candidates with that score appear in store-iteration order.
    For an empty store the result is empty whatever [top_k] is. *)
Theorem query_ranked_top_k (cfg : Config) (env : Env) (st : VectorStore)
    (query_text : string) (top_k : Z) :
  (0 <= top_k)%Z ->
  let res := query cfg env st query_text top_k in
  let scored := scored_candidates cfg env st query_text in
  (Z.of_nat (List.length res) <= top_k)%Z /\
  (exists ranked,
     Permutation ranked scored /\ Sorted desc ranked /\
     (forall r, filter_score r ranked = filter_score r scored) /\
     res = firstn (Z.to_nat top_k) ranked) /\
  (forall k, _index st = [] -> query cfg env st query_text k = []).
Proof.
  intros Hk. cbv zeta.
  assert (Hres : query cfg env st query_text top_k
                 = firstn (Z.to_nat top_k) (sort_desc (scored_candidates cfg env st query_text))).
  { unfold query. destruct (_index st) eqn:E.
    - unfold scored_candidates. rewrite E. simpl. destruct (Z.to_nat top_k); reflexivity.
    - apply slice_to_nonneg, Hk. }
  split; [|split].
  - rewrite Hres, length_firstn. lia.
  - exists (sort_desc (scored_candidates cfg env st query_text)).
    split; [apply sort_desc_perm|]. split; [apply sort_desc_sorted|].
    split; [intros r; apply sort_desc_filter | exact Hres].
  - intros k. apply query_empty_store.
Qed.

Lemma query_ranked_top_k_witness :
  (0 <= 1)%Z /\
  let res := query Fixtures.cfg_tfidf Fixtures.env0 Fixtures.store_ab
               "autonomous agents govern policy" 1 in
  let scored := scored_candidates Fixtures.cfg_tfidf Fixtures.env0 Fixtures.store_ab
                  "autonomous agents govern policy" in
  (Z.of_nat (List.length res) <= 1)%Z /\
  (exists ranked,
     Permutation ranked scored /\ Sorted desc ranked /\
     (forall r, filter_score r ranked = filter_score r scored) /\
     res = firstn (Z.to_nat 1) ranked) /\
  (forall k, _index Fixtures.store_ab = [] ->
     query Fixtures.cfg_tfidf Fixtures.env0 Fixtures.store_ab
       "autonomous agents govern policy" k = []).
Proof.
  split; [lia|]. apply query_ranked_top_k. lia.
Defined.

(** ** C9: the dense vectors are never read by [query] *)

(** Two documents that agree on everything but the dense vector of their
    embedding. *)
Definition same_but_dense (d1 d2 : Document) : Prop :=
  id d1 = id d2 /\ content d1 = content d2 /\
  backend (embedding d1) = backend (embedding d2) /\
  sparse_vec (embedding d1) = sparse_vec (embedding d2) /\
  metadata d1 = metadata d2 /\ timestamp d1 = timestamp d2 /\
  correlation_id d1 = correlation_id d2 /\ run_id d1 = run_id d2.

Definition stores_differ_only_in_dense (s1 s2 : VectorStore) : Prop :=
  Forall2 (fun e1 e2 => fst e1 = fst e2 /\ same_but_dense (snd e1) (snd e2))
          (_index s1) (_index s2).

Section Rel.
Context {A B : Type} (P : A -> B -> Prop).

Definition same_score (p1 : R * A) (p2 : R * B) : Prop :=
  fst p1 = fst p2 /\ P (snd p1) (snd p2).

Lemma insert_desc_rel x1 x2 l1 l2 :
  same_score x1 x2 -> Forall2 same_score l1 l2 ->
  Forall2 same_score (insert_desc x1 l1) (insert_desc x2 l2).
Proof.
  intros Hx Hl. induction Hl as [|y1 y2 l1 l2 Hy Hl IH]; simpl.
  - constructor; [exact Hx | constructor].
  - pose proof Hx as [Ex _]. pose proof Hy as [Ey _].
    rewrite Ex, Ey.
    destruct (Rlt_dec (fst y2) (fst x2)).
    + constructor; [exact Hx|]. constructor; [exact Hy | exact Hl].
    + constructor; [exact Hy | exact IH].
Qed.

Lemma sort_desc_rel l1 l2 :
  Forall2 same_score l1 l2 -> Forall2 same_score (sort_desc l1) (sort_desc l2).
Proof.
  unfold sort_desc. intros H.
  assert (Hacc : Forall2 same_score (@nil (R * A)) (@nil (R * B))) by constructor.
  revert Hacc. generalize (@nil (R * A)) (@nil (R * B)).
  induction H as [|x1 x2 l1 l2 Hx Hl IH]; intros acc1 acc2 Hacc; simpl; [exact Hacc|].
  apply IH. apply insert_desc_rel; assumption.
Qed.

End Rel.

Lemma Forall2_firstn {A B} (Q : A -> B -> Prop) n l1 l2 :
  Forall2 Q l1 l2 -> Forall2 Q (firstn n l1) (firstn n l2).
Proof.
  intros H. revert n. induction H; intros [|n]; simpl; constructor; auto.
Qed.

Lemma Forall2_skipn {A B} (Q : A -> B -> Prop) n l1 l2 :
  Forall2 Q l1 l2 -> Forall2 Q (skipn n l1) (skipn n l2).
Proof.
  intros H. revert n. induction H; intros [|n]; simpl; auto; constructor; auto.
Qed.

Lemma Forall2_map_both {A B C D} (Q : C -> D -> Prop) (f : A -> C) (g : B -> D) l1 l2 :
  Forall2 (fun x y => Q (f x) (g y)) l1 l2 -> Forall2 Q (map f l1) (map g l2).
Proof. induction 1; simpl; constructor; assumption. Qed.

Lemma Forall2_slice {A B} (Q : A -> B -> Prop) l1 l2 i j :
  Forall2 Q l1 l2 -> Forall2 Q (Py.slice l1 i j) (Py.slice l2 i j).
Proof.
  intros H. unfold Py.slice. rewrite (Forall2_length H).
  apply Forall2_firstn, Forall2_skipn, H.
Qed.

(** C9. [query] never reads the dense part of an embedding: on two stores
    whose documents agree except in the dense vectors of their embeddings,
    it returns the same scores for the same document ids in the same order,
    for every query text and [top_k]. *)
Theorem query_ignores_dense (cfg : Config) (env : Env) (s1 s2 : VectorStore)
    (query_text : string) (top_k : Z) :
  stores_differ_only_in_dense s1 s2 ->
  map (fun p => (fst p, id (snd p))) (query cfg env s1 query_text top_k) =
  map (fun p => (fst p, id (snd p))) (query cfg env s2 query_text top_k).
Proof.
  intros H.
  assert (Hres : Forall2 (same_score same_but_dense)
                   (query cfg env s1 query_text top_k)
                   (query cfg env s2 query_text top_k)).
  { unfold query.
    destruct (_index s1) as [|e1 es1] eqn:E1, (_index s2) as [|e2 es2] eqn:E2;
      unfold stores_differ_only_in_dense in H; rewrite E1, E2 in H;
      inversion H; subst; try constructor.
    rewrite <- E1, <- E2 in H.
    apply Forall2_slice, sort_desc_rel.
    unfold scored_candidates. rewrite !map_map. apply Forall2_map_both.
    eapply Forall2_impl; [|exact H].
    intros [k1 d1] [k2 d2] [_ Hd]. unfold same_score. simpl in *. split; [|exact Hd].
    destruct Hd as (_ & _ & _ & Hsp & _). rewrite Hsp. reflexivity. }
  induction Hres as [|p1 p2 r1 r2 [Hs [Hid _]] _ IH]; simpl; [reflexivity|].
  rewrite Hs, Hid, IH. reflexivity.
Qed.

Lemma query_ignores_dense_witness :
  stores_differ_only_in_dense Fixtures.store_ab Fixtures.store_ab_dense /\
  map (fun p => (fst p, id (snd p)))
      (query Fixtures.cfg_tfidf Fixtures.env0 Fixtures.store_ab "autonomous policy" 5) =
  map (fun p => (fst p, id (snd p)))
      (query Fixtures.cfg_tfidf Fixtures.env0 Fixtures.store_ab_dense "autonomous policy" 5).
Proof.
  assert (H : stores_differ_only_in_dense Fixtures.store_ab Fixtures.store_ab_dense).
  { unfold stores_differ_only_in_dense; simpl.
    repeat constructor. }
  split; [exact H | apply query_ignores_dense; exact H].
Defined.

(** ** C6: [rehydrate] can raise *)

(** C6 (code bug).  [_load_recent_telemetry] computes the sort keys
    [p.stat().st_mtime] outside any [try]: with a dangling [run-1.json] link
    in the telemetry directory, [rehydrate] with its default flags raises
    [FileNotFoundError] instead of returning a bundle.  A snapshot whose
    modification time is beyond the year 9999 makes [datetime.fromtimestamp]
    raise [ValueError], which [except OSError] does not catch. *)
Theorem rehydrate_raises_on_dangling_telemetry :
  Rehydration.rehydrate Fixtures.cfg_tfidf Fixtures.env0 (fun _ => Fixtures.env0) 2
    Fixtures.fs_dangling_run "plan a new discovery run" 10 true true true
    (Some (mkVectorStore []))
  = Rehydration.Raise Rehydration.FileNotFoundError /\
  Rehydration.rehydrate Fixtures.cfg_tfidf Fixtures.env0 (fun _ => Fixtures.env0) 2
    Fixtures.fs_far_future_snapshot "plan a new discovery run" 10 true true true
    (Some (mkVectorStore []))
  = Rehydration.Raise Rehydration.ValueError.
Proof. split; reflexivity. Qed.

(** ** The index of a store *)

(** A well-formed index: keys are distinct and every document is stored
    under its own id. *)
Definition wf_index (idx : list (string * Document)) : Prop :=
  NoDup (map fst idx) /\ Forall (fun e => id (snd e) = fst e) idx.

(** The ids and contents of an index, in index order. *)
Definition ids_contents (idx : list (string * Document)) : list (string * string) :=
  map (fun '(k, d) => (k, content d)) idx.

Section DictMore.
Context {V : Type}.

Lemma Forall_dict_set (P : string * V -> Prop) (k : string) (v : V) d :
  Forall P d -> P (k, v) -> Forall P (Py.dict_set k v d).
Proof.
  intros Hd Hkv. induction Hd as [|[k0 v0] d H0 Hd IH]; simpl.
  - constructor; [exact Hkv | constructor].
  - destruct (string_dec k k0) as [->|]; constructor; auto.
Qed.

Lemma keys_dict_del (k : string) (d : list (string * V)) x :
  In x (map fst (dict_del k d)) -> In x (map fst d).
Proof.
  induction d as [|[k0 v0] d IH]; simpl; [tauto|].
  destruct (string_dec k k0); simpl; [tauto|].
  intros [E|H]; [left; exact E | right; exact (IH H)].
Qed.

Lemma NoDup_dict_del (k : string) (d : list (string * V)) :
  NoDup (map fst d) -> NoDup (map fst (dict_del k d)).
Proof.
  induction d as [|[k0 v0] d IH]; simpl; [tauto|].
  intros Hnd. inversion Hnd as [|? ? Hn Hnd']; subst.
  destruct (string_dec k k0); [exact Hnd'|]. simpl.
  constructor; [|exact (IH Hnd')].
  intros Hin. apply Hn. exact (keys_dict_del k d k0 Hin).
Qed.

Lemma Forall_dict_del (P : string * V -> Prop) (k : string) d :
  Forall P d -> Forall P (dict_del k d).
Proof.
  induction 1 as [|[k0 v0] d H0 Hd IH]; simpl; [constructor|].
  destruct (string_dec k k0); [exact Hd | constructor; assumption].
Qed.

Lemma dict_set_fresh (k : string) (v : V) d :
  ~ In k (map fst d) -> Py.dict_set k v d = app d [(k, v)].
Proof.
  induction d as [|[k0 v0] d IH]; simpl; [reflexivity|].
  intros Hn. destruct (string_dec k k0) as [->|]; [exfalso; apply Hn; left; reflexivity|].
  rewrite IH; [reflexivity | tauto].
Qed.

Lemma dict_set_map_values {W} (f : V -> W) (k : string) (v : V) d :
  map (fun '(k', x) => (k', f x)) (Py.dict_set k v d) =
  Py.dict_set k (f v) (map (fun '(k', x) => (k', f x)) d).
Proof.
  induction d as [|[k0 v0] d IH]; simpl; [reflexivity|].
  destruct (string_dec k k0); simpl; [reflexivity | rewrite IH; reflexivity].
Qed.

End DictMore.

Lemma wf_dict_set k d idx :
  wf_index idx -> id d = k -> wf_index (Py.dict_set k d idx).
Proof.
  intros [Hnd Hf] Hk. split.
  - apply NoDup_dict_set; exact Hnd.
  - apply Forall_dict_set; [exact Hf | exact Hk].
Qed.

Lemma wf_load_lines envs i ls idx :
  wf_index idx -> wf_index (load_lines envs i ls idx).
Proof.
  revert i idx. induction ls as [|l ls IH]; intros i idx Hwf; simpl; [exact Hwf|].
  apply IH. destruct l as [| |j]; try exact Hwf.
  destruct (from_dict (envs i) j) as [doc|]; [|exact Hwf].
  apply wf_dict_set; [exact Hwf | reflexivity].
Qed.

Lemma wf_new_store envs file : wf_index (_index (new_store envs file)).
Proof.
  destruct file as [ls|]; simpl.
  - apply wf_load_lines. split; constructor.
  - split; constructor.
Qed.

Lemma wf_upsert cfg st c :
  wf_index (_index st) -> wf_index (_index (fst (fst (upsert_call cfg st c)))).
Proof. intros Hwf. simpl. apply wf_dict_set; [exact Hwf | reflexivity]. Qed.

Lemma wf_delete st k :
  wf_index (_index st) -> wf_index (_index (fst (fst (delete st k)))).
Proof.
  intros [Hnd Hf]. unfold delete.
  destruct (Py.lookup k (_index st)); simpl; [|split; assumption].
  split; [apply NoDup_dict_del; exact Hnd | apply Forall_dict_del; exact Hf].
Qed.

Lemma reachable_wf cfg st : reachable cfg st -> wf_index (_index st).
Proof.
  induction 1.
  - apply wf_new_store.
  - apply wf_upsert; assumption.
  - apply wf_delete; assumption.
  - split; constructor.
Qed.

Lemma wf_ids_distinct idx :
  wf_index idx -> NoDup (map (fun e => id (snd e)) idx).
Proof.
  intros [Hnd Hf].
  replace (map (fun e => id (snd e)) idx) with (map fst idx); [exact Hnd|].
  induction Hf as [|e idx He Hf IH]; simpl; [reflexivity|].
  inversion Hnd; subst. rewrite He, IH by assumption. reflexivity.
Qed.

Lemma upsert_keys_existing cfg env st doc_id content_ md cid rid skip :
  In doc_id (map fst (_index st)) ->
  map fst (_index (fst (fst (upsert cfg env st doc_id content_ md cid rid skip)))) =
  map fst (_index st).
Proof.
  intros Hin. simpl. rewrite keys_dict_set.
  destruct (in_dec string_dec doc_id (map fst (_index st))); [reflexivity | contradiction].
Qed.

Lemma upsert_key_present cfg env st doc_id content_ md cid rid skip :
  In doc_id (map fst (_index (fst (fst (upsert cfg env st doc_id content_ md cid rid skip))))).
Proof.
  simpl. rewrite keys_dict_set.
  destruct (in_dec string_dec doc_id (map fst (_index st))) as [H|]; [exact H|].
  apply in_or_app; right; left; reflexivity.
Qed.

(** ** C7: upserting an existing id *)

(** C7.  On any store the program can hold, a second [upsert] of an id
    leaves [count()] unchanged, [get] returns the document of the second
    call, whose content is the second content and whose other fields come
    from the second call only (the first document is replaced as a whole),
    and no two documents of the store share an id. *)
Theorem upsert_same_id_replaces cfg st env1 env2 doc_id content_A content_B
    md1 md2 cid1 cid2 rid1 rid2 skip1 skip2 :
  reachable cfg st ->
  let st1 := fst (fst (upsert cfg env1 st doc_id content_A md1 cid1 rid1 skip1)) in
  let r2 := upsert cfg env2 st1 doc_id content_B md2 cid2 rid2 skip2 in
  let st2 := fst (fst r2) in
  count st2 = count st1 /\
  get_doc st2 doc_id = Some (snd r2) /\
  content (snd r2) = content_B /\
  snd r2 = make_document env2 doc_id content_B (doc_embedding cfg env2 skip2 content_B)
             (match md2 with Some m => m | None => [] end) None cid2 rid2 /\
  NoDup (map (fun e => id (snd e)) (_index st2)).
Proof.
  intros Hreach st1 r2 st2.
  assert (Hwf1 : reachable cfg st1).
  { exact (reach_upsert cfg st (mkUpsertCall env1 doc_id content_A md1 cid1 rid1 skip1) Hreach). }
  assert (Hwf2 : reachable cfg st2).
  { exact (reach_upsert cfg st1 (mkUpsertCall env2 doc_id content_B md2 cid2 rid2 skip2) Hwf1). }
  split; [|split; [|split; [reflexivity|split; [reflexivity|]]]].
  - unfold count. rewrite <- !(length_map fst).
    unfold st2, r2. rewrite upsert_keys_existing; [reflexivity|].
    apply upsert_key_present.
  - unfold get_doc, st2, r2. simpl. apply lookup_dict_set_same.
  - apply wf_ids_distinct, (reachable_wf cfg). exact Hwf2.
Qed.

(** Witness for C7: a store opened on a missing file. *)
Lemma upsert_same_id_replaces_witness :
  reachable Fixtures.cfg_tfidf (new_store (fun _ => Fixtures.env0) None) /\
  count (fst (fst (upsert Fixtures.cfg_tfidf Fixtures.env0
    (fst (fst (upsert Fixtures.cfg_tfidf Fixtures.env0 (new_store (fun _ => Fixtures.env0) None)
       "mem-001" "first" None None "" false)))
    "mem-001" "second" None None "" false)))
  = count (fst (fst (upsert Fixtures.cfg_tfidf Fixtures.env0 (new_store (fun _ => Fixtures.env0) None)
       "mem-001" "first" None None "" false))).
Proof.
  assert (H : reachable Fixtures.cfg_tfidf (new_store (fun _ => Fixtures.env0) None)).
  { apply reach_new. }
  split; [exact H|].
  exact (proj1 (upsert_same_id_replaces Fixtures.cfg_tfidf _ Fixtures.env0 Fixtures.env0
    "mem-001" "first" "second" None None None None "" "" false false H)).
Defined.

(** ** JSONL round trip *)

Lemma sparse_of_json_fields_of_sparse (v : sparse) :
  sparse_of_json_fields (map (fun '(k, x) => (k, JNum x)) v) = Some v.
Proof. induction v as [|[k x] v IH]; simpl; [reflexivity | rewrite IH; reflexivity]. Qed.

Lemma nums_of_json_map (xs : list R) : nums_of_json (map JNum xs) = Some xs.
Proof. induction xs as [|x xs IH]; simpl; [reflexivity | rewrite IH; reflexivity]. Qed.

Lemma embedding_of_json_of_embedding (e : Embedding) :
  embedding_of_json (json_of_embedding e) = Some e.
Proof.
  destruct e as [b v dn]. unfold json_of_embedding, json_of_sparse. simpl.
  rewrite sparse_of_json_fields_of_sparse.
  destruct dn as [xs|]; [rewrite nums_of_json_map|]; reflexivity.
Qed.

(** [Document.from_dict(doc.to_dict())] succeeds and keeps the id and the
    content. *)
Lemma from_dict_to_dict env d :
  exists d', from_dict env (to_dict d) = Some d' /\ id d' = id d /\ content d' = content d.
Proof.
  unfold from_dict, to_dict. cbn [Py.lookup].
  repeat match goal with
         | |- context [string_dec ?a ?b] =>
             let H := fresh in
             destruct (string_dec a b) as [H|H];
             [try discriminate H | try (exfalso; apply H; reflexivity)]
         end.
  rewrite embedding_of_json_of_embedding.
  eexists; split; [reflexivity | split; reflexivity].
Qed.

(** What [_load] keeps of a line, its id and content, does not depend on
    the environment. *)
Lemma from_dict_env_indep env env' j :
  option_map (fun d => (id d, content d)) (from_dict env j) =
  option_map (fun d => (id d, content d)) (from_dict env' j).
Proof.
  unfold from_dict.
  repeat match goal with
         | |- context [match ?x with _ => _ end] => destruct x
         end; reflexivity.
Qed.

Lemma load_lines_env_indep envs envs' ls i j acc acc' :
  ids_contents acc = ids_contents acc' ->
  ids_contents (load_lines envs i ls acc) = ids_contents (load_lines envs' j ls acc').
Proof.
  revert i j acc acc'.
  induction ls as [|l ls IH]; intros i j acc acc' Hacc; simpl; [exact Hacc|].
  apply IH. destruct l as [| |js]; try exact Hacc.
  pose proof (from_dict_env_indep (envs i) (envs' j) js) as E.
  destruct (from_dict (envs i) js) as [d|], (from_dict (envs' j) js) as [d'|];
    simpl in E; try discriminate; [|exact Hacc].
  injection E as Eid Ec. unfold ids_contents in *.
  rewrite !dict_set_map_values, Hacc, Eid, Ec. reflexivity.
Qed.

Lemma load_lines_flush envs i idx acc :
  wf_index idx ->
  (forall k, In k (map fst idx) -> ~ In k (map fst acc)) ->
  ids_contents (load_lines envs i (map (fun '(_, doc) => JsonLine (to_dict doc)) idx) acc)
  = app (ids_contents acc) (ids_contents idx).
Proof.
  revert i acc. induction idx as [|[k d] idx IH]; intros i acc [Hnd Hf] Hdisj;
    cbn [load_lines map].
  - unfold ids_contents at 2. cbn [map]. rewrite app_nil_r. reflexivity.
  - inversion Hnd as [|? ? Hk Hnd']; subst.
    inversion Hf as [|? ? Hid Hf']; subst. simpl in Hid.
    destruct (from_dict_to_dict (envs i) d) as [d' [Ed [Eid Ec]]].
    rewrite Ed, Eid, Hid.
    rewrite dict_set_fresh by (apply Hdisj; left; reflexivity).
    rewrite IH.
    + unfold ids_contents. rewrite map_app, <- app_assoc. simpl. rewrite Ec. reflexivity.
    + split; assumption.
    + intros x Hx. rewrite map_app. simpl. intros Hx'.
      apply in_app_or in Hx' as [Hx'|[E|[]]].
      * apply (Hdisj x); [right; exact Hx | exact Hx'].
      * subst. contradiction.
Qed.

Lemma run_upserts_shape cfg calls st file :
  wf_index (_index st) ->
  run_upserts cfg calls st file = (st, file) \/
  (snd (run_upserts cfg calls st file) = Some (_flush (fst (run_upserts cfg calls st file))) /\
   wf_index (_index (fst (run_upserts cfg calls st file)))).
Proof.
  revert st file. induction calls as [|c calls IH]; intros st file Hwf; [left; reflexivity|].
  right. cbn [run_upserts].
  destruct (upsert_call cfg st c) as [[st' lines] doc] eqn:Eu.
  assert (Hwf' : wf_index (_index st')).
  { pose proof (wf_upsert cfg st c Hwf) as H. rewrite Eu in H. exact H. }
  assert (Hl : lines = _flush st').
  { unfold upsert_call, upsert in Eu. injection Eu as <- <- _. reflexivity. }
  subst lines.
  destruct (IH st' (Some (_flush st')) Hwf') as [E|H]; [|exact H].
  rewrite E. split; [reflexivity | exact Hwf'].
Qed.

Lemma ids_contents_keys idx : map fst (ids_contents idx) = map fst idx.
Proof. apply keys_map_values. Qed.

Lemma ids_contents_lookup idx k :
  Py.lookup k (ids_contents idx) = option_map content (Py.lookup k idx).
Proof. apply lookup_map_values. Qed.

(** ** C8: persistence round trip *)

(** C8.  After any sequence of [upsert] calls on a store opened on the file
    [file], a new store opened on the resulting file has the same document
    ids, in the same order, and the same content under each id as the
    in-memory store. *)
Theorem reopen_after_upserts_same_ids_contents cfg envs envs' file calls :
  let r := run_upserts cfg calls (new_store envs file) file in
  let reopened := new_store envs' (snd r) in
  map fst (_index reopened) = map fst (_index (fst r)) /\
  forall k, option_map content (get_doc reopened k) = option_map content (get_doc (fst r) k).
Proof.
  intros r reopened.
  assert (E : ids_contents (_index reopened) = ids_contents (_index (fst r))).
  { unfold reopened, r.
    destruct (run_upserts_shape cfg calls (new_store envs file) file (wf_new_store envs file))
      as [Er|[Es Hwf]].
    - rewrite Er. simpl. destruct file as [ls|]; simpl; [|reflexivity].
      apply load_lines_env_indep. reflexivity.
    - rewrite Es. simpl. unfold _flush.
      rewrite load_lines_flush; [reflexivity | exact Hwf | simpl; tauto]. }
  split.
  - rewrite <- !ids_contents_keys, E. reflexivity.
  - intros k. unfold get_doc. rewrite <- !ids_contents_lookup, E. reflexivity.
Qed.

(** ** Words and windows *)

Definition nonblank (w : string) : Prop := Py.strip_nonempty w = true.

Lemma list_ascii_of_string_append (a b : string) :
  list_ascii_of_string (a ++ b) = app (list_ascii_of_string a) (list_ascii_of_string b).
Proof. induction a as [|c a IH]; simpl; [reflexivity | rewrite IH; reflexivity]. Qed.

Lemma strip_nonempty_append (a b : string) :
  Py.strip_nonempty (a ++ b) = Py.strip_nonempty a || Py.strip_nonempty b.
Proof. unfold Py.strip_nonempty. rewrite list_ascii_of_string_append, existsb_app. reflexivity. Qed.

Lemma join_space_nonblank (ws : list string) :
  Forall nonblank ws -> ws <> [] -> nonblank (Py.join_space ws).
Proof.
  intros Hf Hne. destruct ws as [|w ws]; [congruence|].
  inversion Hf as [|? ? Hw _]; subst.
  destruct ws as [|w' ws]; [exact Hw|].
  change (Py.join_space (w :: w' :: ws)) with (w ++ " " ++ Py.join_space (w' :: ws))%string.
  unfold nonblank in *. rewrite strip_nonempty_append, Hw. reflexivity.
Qed.

Lemma split_ws_go_nonblank (cs cur : list ascii) :
  Forall (fun c => Py.is_space c = false) cur ->
  Forall nonblank (Py.split_ws_go cs cur).
Proof.
  assert (Hpiece : forall cur, Forall (fun c => Py.is_space c = false) cur -> cur <> [] ->
            nonblank (string_of_list_ascii (rev cur))).
  { intros cur0 Hc Hne. unfold nonblank, Py.strip_nonempty.
    rewrite list_ascii_of_string_of_list_ascii. apply existsb_exists.
    destruct cur0 as [|c cur0]; [congruence|].
    inversion Hc as [|? ? Hsp _]; subst.
    exists c. split; [apply in_rev; rewrite rev_involutive; left; reflexivity|].
    rewrite Hsp. reflexivity. }
  revert cur. induction cs as [|c cs IH]; intros cur Hc; simpl.
  - destruct cur as [|c0 cur]; [constructor|].
    constructor; [apply Hpiece; [exact Hc | discriminate] | constructor].
  - destruct (Py.is_space c) eqn:Hsp.
    + destruct cur as [|c0 cur]; [apply IH; constructor|].
      constructor; [apply Hpiece; [exact Hc | discriminate] | apply IH; constructor].
    + apply IH. constructor; assumption.
Qed.

(** The words of [str.split()] are never blank. *)
Lemma split_ws_nonblank (s : string) : Forall nonblank (Py.split_ws s).
Proof. apply split_ws_go_nonblank. constructor. Qed.

Lemma firstn_min_length {A} (k : nat) (l : list A) :
  firstn (Nat.min k (List.length l)) l = firstn k l.
Proof.
  revert l. induction k as [|k IH]; intros [|x l]; simpl; try reflexivity.
  rewrite IH. reflexivity.
Qed.

(** The slice of the loop body is the window at [start]. *)
Lemma loop_slice_window (words : list string) (cs s : Z) :
  (0 < cs)%Z -> (0 <= s < Z.of_nat (List.length words))%Z ->
  Py.slice words s (Z.min (s + cs) (Z.of_nat (List.length words))) =
  firstn (Z.to_nat cs) (skipn (Z.to_nat s) words).
Proof.
  intros Hcs Hs. unfold Py.slice, Py.slice_bound.
  set (n := Z.of_nat (List.length words)) in *.
  replace ((s <? 0)%Z) with false by (symmetry; apply Z.ltb_ge; lia).
  replace ((Z.min (s + cs) n <? 0)%Z) with false by (symmetry; apply Z.ltb_ge; lia).
  replace (Z.max 0 (Z.min s n)) with s by lia.
  replace (Z.max 0 (Z.min (Z.min (s + cs) n) n)) with (Z.min (s + cs) n) by lia.
  rewrite <- (firstn_min_length (Z.to_nat cs)), length_skipn.
  f_equal. unfold n. lia.
Qed.

Lemma window_nonblank (words : list string) (cs s : Z) :
  Forall nonblank words -> (0 < cs)%Z -> (0 <= s < Z.of_nat (List.length words))%Z ->
  nonblank (window words cs s).
Proof.
  intros Hf Hcs Hs. unfold window. apply join_space_nonblank.
  - pose proof (firstn_skipn (Z.to_nat s) words) as E1.
    rewrite <- E1 in Hf. apply Forall_app in Hf as [_ Hf].
    pose proof (firstn_skipn (Z.to_nat cs) (skipn (Z.to_nat s) words)) as E2.
    rewrite <- E2 in Hf. apply Forall_app in Hf as [Hf _]. exact Hf.
  - destruct (skipn (Z.to_nat s) words) as [|w r] eqn:E.
    + exfalso. apply (f_equal (@List.length string)) in E.
      rewrite length_skipn in E. simpl in E. lia.
    + destruct (Z.to_nat cs) as [|k] eqn:Ek; [lia|]. simpl. discriminate.
Qed.

Lemma window_count_pos n cs ov : (ov < cs)%Z -> (1 <= window_count n cs ov)%Z.
Proof.
  intros H. unfold window_count.
  destruct (n <=? cs)%Z eqn:E; [lia|].
  apply Z.leb_gt in E.
  assert (0 <= (n - cs + (cs - ov) - 1) / (cs - ov))%Z by (apply Z.div_pos; lia).
  lia.
Qed.

Lemma window_count_step n cs ov :
  (0 <= ov < cs)%Z -> (cs < n)%Z ->
  window_count n cs ov = (1 + window_count (n - (cs - ov)) cs ov)%Z.
Proof.
  intros Hov Hn. unfold window_count.
  replace ((n <=? cs)%Z) with false by (symmetry; apply Z.leb_gt; lia).
  set (step := (cs - ov)%Z).
  destruct ((n - step <=? cs)%Z) eqn:E.
  - apply Z.leb_le in E. f_equal.
    symmetry. apply Z.div_unique with (n - cs - 1)%Z; unfold step in *; lia.
  - apply Z.leb_gt in E.
    replace (n - cs + step - 1)%Z with ((n - step - cs + step - 1) + 1 * step)%Z by ring.
    rewrite Z.div_add by (unfold step; lia). ring.
Qed.

Lemma map_seq_succ {B} (f : nat -> B) (m : nat) :
  map f (seq 0 (S m)) = f 0%nat :: map (fun k => f (S k)) (seq 0 m).
Proof. simpl. rewrite <- seq_shift, map_map. reflexivity. Qed.

(** The window loop of a section started at [s]: the windows at
    [s + k * step] for [k < window_count (n - s)]. *)
Lemma window_loop_windows (words : list string) (cs ov : Z) :
  Forall nonblank words -> (0 <= ov < cs)%Z ->
  forall fuel s, (0 <= s < Z.of_nat (List.length words))%Z ->
  (Z.to_nat (Z.of_nat (List.length words) - s) < fuel)%nat ->
  window_loop fuel words cs ov s =
  Some (map (fun k => window words cs (s + Z.of_nat k * (cs - ov)))
            (seq 0 (Z.to_nat (window_count (Z.of_nat (List.length words) - s) cs ov)))).
Proof.
  intros Hf Hov fuel. induction fuel as [|f IH]; intros s Hs Hfuel; [lia|].
  cbn [window_loop].
  set (n := Z.of_nat (List.length words)) in *.
  replace ((s <? n)%Z) with true by (symmetry; apply Z.ltb_lt; lia).
  rewrite loop_slice_window by (lia || exact Hs).
  change (Py.join_space (firstn (Z.to_nat cs) (skipn (Z.to_nat s) words)))
    with (window words cs s).
  rewrite (window_nonblank words cs s Hf) by lia.
  destruct ((n <=? Z.min (s + cs) n)%Z) eqn:Eend.
  - apply Z.leb_le in Eend.
    unfold window_count. replace ((n - s <=? cs)%Z) with true by (symmetry; apply Z.leb_le; lia).
    simpl. rewrite Z.add_0_r. reflexivity.
  - apply Z.leb_gt in Eend.
    replace (Z.min (s + cs) n - ov)%Z with (s + (cs - ov))%Z by lia.
    rewrite IH by lia.
    rewrite (window_count_step (n - s)) by lia.
    replace (n - s - (cs - ov))%Z with (n - (s + (cs - ov)))%Z by ring.
    pose proof (window_count_pos (n - (s + (cs - ov))) cs ov ltac:(lia)).
    rewrite Z2Nat.inj_add by lia. change (Z.to_nat 1) with 1%nat. simpl Nat.add.
    rewrite map_seq_succ. simpl app. rewrite Z.add_0_r.
    f_equal. f_equal. apply map_ext. intros k. f_equal. lia.
Qed.

(** ** C4: window starts *)

(** C4 (counterexample).  In a section of ten words with [chunk_size = 5]
    and [overlap = 2], the rule of the claim (advance by 3 until the start
    is at or past the end) gives windows at 0, 3, 6 and 9, four chunks; the
    code emits three, at 0, 3 and 6: the window at 6 reaches the end of the
    section and the loop breaks. *)
Lemma chunk_window_starts_counterexample :
  claimed_window_starts 20 10 (5 - 2) 0 = [0; 3; 6; 9]%Z /\
  _chunk_text 20 "a b c d e f g h i j" 5 2 = Some ["a b c d e"; "d e f g h"; "g h i j"].
Proof. split; vm_compute; reflexivity. Qed.

(** C4 (amended).  For [0 <= overlap < chunk_size], a section with [n >= 1]
    words yields the windows [words[k*step : k*step + chunk_size]] with
    [step = chunk_size - overlap], for [k < window_count n], where
    [window_count n] is 1 when [n <= chunk_size] and
    [1 + ceil((n - chunk_size) / step)] otherwise: the loop stops after the
    first window that reaches the end.  A section of 1000 words with 500 and
    50 yields the windows at 0, 450 and 900, the last of 100 words. *)
Theorem section_windows (section : string) (chunk_size overlap : Z) (fuel : nat) :
  (0 <= overlap < chunk_size)%Z ->
  Py.split_ws section <> [] ->
  (List.length (Py.split_ws section) < fuel)%nat ->
  (let words := Py.split_ws section in
   window_loop fuel words chunk_size overlap 0 =
   Some (map (fun k => window words chunk_size (Z.of_nat k * (chunk_size - overlap)))
             (seq 0 (Z.to_nat (window_count (Z.of_nat (List.length words))
                                 chunk_size overlap))))) /\
  (forall (section' : string) (fuel' : nat),
   let words := Py.split_ws section' in
   List.length words = 1000%nat -> (1000 < fuel')%nat ->
   window_loop fuel' words 500 50 0 =
   Some [window words 500 0; window words 500 450; window words 500 900] /\
   List.length (firstn 500 (skipn 900 words)) = 100%nat).
Proof.
  intros Hov Hne Hfuel. split.
  - intros words.
    rewrite (window_loop_windows words chunk_size overlap (split_ws_nonblank section) Hov
               fuel 0).
    + rewrite Z.sub_0_r. reflexivity.
    + destruct words as [|w ws] eqn:E; [contradiction|]. simpl. lia.
    + rewrite Z.sub_0_r, Nat2Z.id. exact Hfuel.
  - intros section' fuel' words Hlen Hf.
    split.
    + rewrite (window_loop_windows words 500 50 (split_ws_nonblank section') ltac:(lia)
                 fuel' 0).
      * rewrite Hlen. reflexivity.
      * rewrite Hlen. lia.
      * rewrite Hlen. simpl. lia.
    + rewrite length_firstn, length_skipn, Hlen. reflexivity.
Qed.

(** Witness for C4: a three-word section, windows of two words overlapping
    by one. *)
Lemma section_windows_witness :
  window_loop 4 (Py.split_ws "a b c") 2 1 0 = Some ["a b"; "b c"] /\
  window_loop 4 (Py.split_ws "a b c") 2 1 0 =
  Some (map (fun k => window (Py.split_ws "a b c") 2 (Z.of_nat k * (2 - 1)))
            (seq 0 (Z.to_nat (window_count (Z.of_nat (List.length (Py.split_ws "a b c"))) 2 1)))).
Proof.
  split; [vm_compute; reflexivity|].
  apply (proj1 (section_windows "a b c" 2 1 4 ltac:(lia) ltac:(vm_compute; discriminate)
                  ltac:(vm_compute; lia))).
Defined.

(** ** Heading split *)

Lemma count_hashes_spec (s : list ascii) :
  s = app (repeat "#"%char (fst (count_hashes s))) (snd (count_hashes s)).
Proof.
  induction s as [|c s IH]; [reflexivity|]. cbn [count_hashes].
  destruct (ascii_dec c "#") as [->|]; [|reflexivity].
  destruct (count_hashes s) as [n r]. simpl in *. rewrite <- IH. reflexivity.
Qed.

Lemma match_heading_spec (s r : list ascii) (c : ascii) :
  match_heading s = Some (c, r) ->
  exists m, heading_marker m /\ s = app m r /\ last m newline = c.
Proof.
  unfold match_heading. pose proof (count_hashes_spec s) as Hs.
  destruct (count_hashes s) as [n r0]. simpl in Hs.
  destruct ((1 <=? n) && (n <=? 6))%nat eqn:Hn; [|discriminate].
  apply andb_true_iff in Hn as [H1 H6].
  apply Nat.leb_le in H1. apply Nat.leb_le in H6.
  destruct r0 as [|c0 r0]; [discriminate|].
  destruct (Py.is_space c0) eqn:Hsp; [|discriminate].
  intros [= <- <-].
  exists (app (repeat "#"%char n) [c0]). split; [|split].
  - exists n, c0. repeat split; assumption.
  - rewrite Hs, <- app_assoc. reflexivity.
  - apply last_last.
Qed.

Lemma list_ascii_of_string_of_list (l : list ascii) :
  list_ascii_of_string (string_of_list_ascii l) = l.
Proof. apply list_ascii_of_string_of_list_ascii. Qed.

Lemma last_app_nonempty (l m : list ascii) (d : ascii) :
  m <> [] -> last (app l m) d = last m d.
Proof.
  intros Hm. induction l as [|x l IH]; [reflexivity|].
  rewrite <- app_comm_cons. simpl. rewrite IH.
  destruct l as [|y l]; simpl; [destruct m; [congruence | reflexivity]|].
  destruct (app l m) eqn:E; [|reflexivity].
  apply app_eq_nil in E as [_ E]. contradiction.
Qed.

Lemma heading_split_go_shape (fuel : nat) :
  forall before bol s cur, (List.length s < fuel)%nat ->
  (bol = true -> line_start (app before (rev cur))) ->
  exists p0 rest,
    map list_ascii_of_string (heading_split_go fuel bol s cur) = p0 :: map snd rest /\
    Forall (fun e => heading_marker (fst e)) rest /\
    app (rev cur) s = interleave p0 rest /\
    at_line_starts before p0 rest.
Proof.
  induction fuel as [|f IH]; intros before bol s cur Hlen Hbol; [simpl in Hlen; lia|].
  destruct s as [|c s'].
  - exists (rev cur), []. simpl. rewrite list_ascii_of_string_of_list, app_nil_r.
    repeat split; constructor.
  - cbn [heading_split_go].
    destruct (if bol then match_heading (c :: s') else None) as [[ws r]|] eqn:E.
    + destruct bol; [|discriminate].
      destruct (match_heading_spec _ _ _ E) as [m [Hm [Hs Hlast]]].
      assert (Hmne : m <> []).
      { destruct Hm as [n [c0 [_ [_ ->]]]]. destruct (repeat _ n); discriminate. }
      assert (Hr : (List.length r < f)%nat).
      { destruct Hm as [n [c0 [Hn [_ ->]]]].
        apply (f_equal (@List.length ascii)) in Hs.
        rewrite !length_app, repeat_length in Hs. simpl in Hs, Hlen. lia. }
      destruct (IH (app before (app (rev cur) m)) (Ascii.eqb ws newline) r [] Hr)
        as [p0 [rest [Hp [Hf [Hi Hls]]]]].
      { intros Hws. apply Ascii.eqb_eq in Hws. unfold line_start.
        simpl. rewrite app_nil_r, app_assoc, last_app_nonempty by exact Hmne.
        rewrite Hlast. exact Hws. }
      exists (rev cur), ((m, p0) :: rest). simpl.
      rewrite list_ascii_of_string_of_list, Hp. repeat split.
      * constructor; assumption.
      * rewrite Hs, <- Hi. reflexivity.
      * exact (Hbol eq_refl).
      * exact Hls.
    + assert (Hr : (List.length s' < f)%nat) by (simpl in Hlen; lia).
      destruct (IH before (Ascii.eqb c newline) s' (c :: cur) Hr)
        as [p0 [rest [Hp [Hf [Hi Hls]]]]].
      { intros Hc. apply Ascii.eqb_eq in Hc. unfold line_start.
        simpl. rewrite app_assoc, last_last. exact Hc. }
      exists p0, rest. repeat split; try assumption.
      rewrite <- Hi. simpl. rewrite <- app_assoc. reflexivity.
Qed.

(** The scan of [heading_split_go] also cuts at every line-start match:
    [bol] tells exactly whether the position is a line start, and no
    position pushed onto [cur] starts a match there. *)
Lemma heading_split_go_complete (fuel : nat) :
  forall before bol s cur, (List.length s < fuel)%nat ->
  (bol = true <-> line_start (app before (rev cur))) ->
  (forall u v, rev cur = app u v -> v <> [] -> line_start (app before u) ->
     match_heading (app v s) = None) ->
  exists p0 rest,
    map list_ascii_of_string (heading_split_go fuel bol s cur) = p0 :: map snd rest /\
    Forall (fun e => heading_marker (fst e)) rest /\
    app (rev cur) s = interleave p0 rest /\
    at_line_starts before p0 rest /\
    no_marker_inside before p0 rest.
Proof.
  induction fuel as [|f IH]; intros before bol s cur Hlen Hbol Hinv;
    [simpl in Hlen; lia|].
  destruct s as [|c s'].
  - exists (rev cur), []. simpl. rewrite list_ascii_of_string_of_list, app_nil_r.
    repeat split; try constructor.
    intros u v Hu Hv Hl. rewrite app_nil_r. specialize (Hinv u v Hu Hv Hl).
    rewrite app_nil_r in Hinv. exact Hinv.
  - cbn [heading_split_go].
    destruct (if bol then match_heading (c :: s') else None) as [[ws r]|] eqn:E.
    + destruct bol; [|discriminate].
      destruct (match_heading_spec _ _ _ E) as [m [Hm [Hs Hlast]]].
      assert (Hmne : m <> []).
      { destruct Hm as [n [c0 [_ [_ ->]]]]. destruct (repeat _ n); discriminate. }
      assert (Hr : (List.length r < f)%nat).
      { destruct Hm as [n [c0 [Hn [_ ->]]]].
        apply (f_equal (@List.length ascii)) in Hs.
        rewrite !length_app, repeat_length in Hs. simpl in Hs, Hlen. lia. }
      destruct (IH (app before (app (rev cur) m)) (Ascii.eqb ws newline) r [] Hr)
        as [p0 [rest [Hp [Hf [Hi [Hls Hno]]]]]].
      { unfold line_start. simpl.
        rewrite app_nil_r, app_assoc, last_app_nonempty by exact Hmne.
        rewrite Hlast. split; [apply Ascii.eqb_eq | apply Ascii.eqb_eq]. }
      { intros u v Hu Hv. simpl in Hu. symmetry in Hu.
        apply app_eq_nil in Hu as [_ Hu]. contradiction. }
      exists (rev cur), ((m, p0) :: rest). simpl.
      rewrite list_ascii_of_string_of_list, Hp. repeat split.
      * constructor; assumption.
      * rewrite Hs, <- Hi. reflexivity.
      * apply Hbol. reflexivity.
      * exact Hls.
      * intros u v Hu Hv Hl. rewrite <- Hi. simpl. rewrite <- Hs.
        exact (Hinv u v Hu Hv Hl).
      * exact Hno.
    + assert (Hr : (List.length s' < f)%nat) by (simpl in Hlen; lia).
      destruct (IH before (Ascii.eqb c newline) s' (c :: cur) Hr)
        as [p0 [rest [Hp [Hf [Hi [Hls Hno]]]]]].
      { unfold line_start. simpl. rewrite app_assoc, last_last.
        split; [apply Ascii.eqb_eq | apply Ascii.eqb_eq]. }
      { intros u v Hu Hv Hl. simpl in Hu.
        destruct (exists_last Hv) as [v' [c' ->]].
        rewrite app_assoc in Hu. apply app_inj_tail in Hu as [Hu <-].
        rewrite <- app_assoc. simpl.
        destruct v' as [|x v'].
        - rewrite app_nil_r in Hu. subst u. simpl.
          apply Hbol in Hl. subst bol. exact E.
        - exact (Hinv u (x :: v') Hu ltac:(discriminate) Hl). }
      exists p0, rest. repeat split; try assumption.
      rewrite <- Hi. simpl. rewrite <- app_assoc. reflexivity.
Qed.

(** ** C5: heading markers *)

(** C5 (counterexample).  The text ["# Title\nbody text"] has the heading
    line ["# Title"]; the chunker emits the single chunk
    ["Title body text"], which holds the heading word ["Title"]: only the
    marker ["# "] is removed. *)
Lemma heading_title_kept_counterexample :
  In "Title" (Py.split_ws "# Title") /\
  _chunk_text 10 "# Title
body text" 512 64 = Some ["Title body text"] /\
  In "Title" (Py.split_ws "Title body text").
Proof. repeat split; vm_compute; tauto. Qed.

(** C5 (amended).  The sections of [_HEADING_RE.split(text)] put back
    together with the heading markers between them give the text back: the
    split removes exactly the markers, each one to six ['#'] followed by one
    whitespace character and standing at the start of a line, and keeps
    everything else, the rest of each heading line (its title) included,
    at the start of the next section.  The text is cut at every such
    marker: no section holds, at the start of one of its lines, a match of
    [#{1,6}\s]. *)
Theorem heading_split_removes_only_markers (text : string) :
  exists p0 rest,
    map list_ascii_of_string (heading_split text) = p0 :: map snd rest /\
    Forall (fun e => heading_marker (fst e)) rest /\
    list_ascii_of_string text = interleave p0 rest /\
    at_line_starts [] p0 rest /\
    no_marker_inside [] p0 rest.
Proof.
  unfold heading_split.
  destruct (heading_split_go_complete (S (List.length (list_ascii_of_string text))) []
              true (list_ascii_of_string text) [] ltac:(lia))
    as [p0 [rest [Hp [Hf [Hi [Hls Hno]]]]]].
  - split; reflexivity.
  - intros u v Hu Hv. symmetry in Hu. apply app_eq_nil in Hu as [_ Hu]. contradiction.
  - exists p0, rest. repeat split; assumption.
Qed.

(** ** Termination of the chunker *)

(** With [overlap < chunk_size] every iteration that does not break moves
    the window start forward by [chunk_size - overlap >= 1]. *)
Lemma window_loop_terminates (words : list string) (cs ov : Z) :
  (ov < cs)%Z ->
  forall fuel start, (Z.to_nat (Z.of_nat (List.length words) - start) < fuel)%nat ->
  window_loop fuel words cs ov start <> None.
Proof.
  intros Hov fuel. induction fuel as [|f IH]; intros start Hf; [lia|].
  cbn [window_loop].
  set (n := Z.of_nat (List.length words)) in *.
  destruct (start <? n)%Z eqn:Hs; [|discriminate].
  apply Z.ltb_lt in Hs.
  destruct (n <=? Z.min (start + cs) n)%Z eqn:Hend; [discriminate|].
  apply Z.leb_gt in Hend.
  destruct (window_loop f words cs ov (Z.min (start + cs) n - ov)) eqn:Er; [discriminate|].
  exfalso. apply (IH (Z.min (start + cs) n - ov)%Z); [lia | exact Er].
Qed.

(** With [chunk_size <= overlap], a section of more than [chunk_size] words
    (and at least one) never leaves the loop: the start stays [<= 0]. *)
Lemma window_loop_diverges (words : list string) (cs ov : Z) :
  (cs <= ov)%Z -> (0 < Z.of_nat (List.length words))%Z ->
  (cs < Z.of_nat (List.length words))%Z ->
  forall fuel start, (start <= 0)%Z -> window_loop fuel words cs ov start = None.
Proof.
  intros Hov Hpos Hn fuel. induction fuel as [|f IH]; intros start Hs; [reflexivity|].
  cbn [window_loop].
  set (n := Z.of_nat (List.length words)) in *.
  replace ((start <? n)%Z) with true by (symmetry; apply Z.ltb_lt; lia).
  replace ((n <=? Z.min (start + cs) n)%Z) with false by (symmetry; apply Z.leb_gt; lia).
  rewrite IH by lia. reflexivity.
Qed.

Lemma sections_loop_terminates (sections : list string) (cs ov : Z) (fuel : nat) :
  (ov < cs)%Z ->
  Forall (fun s => (List.length (Py.split_ws s) < fuel)%nat) sections ->
  sections_loop fuel sections cs ov <> None.
Proof.
  intros Hov Hf. induction Hf as [|s sections Hs Hf IH]; [discriminate|].
  cbn [sections_loop].
  pose proof (window_loop_terminates (Py.split_ws s) cs ov Hov fuel 0 ltac:(lia)) as Hw.
  destruct (Py.split_ws s) as [|w ws] eqn:Ew; [exact IH|].
  destruct (window_loop fuel (w :: ws) cs ov 0); [|contradiction].
  destruct (sections_loop fuel sections cs ov); [discriminate | contradiction].
Qed.

Lemma sections_loop_diverges (sections : list string) (cs ov : Z) (fuel : nat) section :
  In section sections -> Py.split_ws section <> [] ->
  window_loop fuel (Py.split_ws section) cs ov 0 = None ->
  sections_loop fuel sections cs ov = None.
Proof.
  intros Hin Hne Hw. induction sections as [|s sections IH]; [contradiction|].
  cbn [sections_loop]. destruct Hin as [->|Hin].
  - destruct (Py.split_ws section) as [|w ws] eqn:Ew; [contradiction|].
    rewrite Hw. reflexivity.
  - rewrite (IH Hin).
    destruct (Py.split_ws s) as [|w ws]; [reflexivity|].
    destruct (window_loop fuel (w :: ws) cs ov 0); reflexivity.
Qed.

Lemma split_ws_go_length (cs cur : list ascii) :
  (List.length (Py.split_ws_go cs cur) <= List.length cs + List.length cur)%nat.
Proof.
  revert cur. induction cs as [|c cs IH]; intros cur; simpl.
  - destruct cur; simpl; lia.
  - destruct (Py.is_space c).
    + destruct cur as [|c0 cur]; [specialize (IH []); simpl in *; lia|].
      simpl. specialize (IH []). simpl in IH. lia.
    + specialize (IH (c :: cur)). simpl in IH. lia.
Qed.

Lemma split_ws_length (s : string) :
  (List.length (Py.split_ws s) <= List.length (list_ascii_of_string s))%nat.
Proof.
  unfold Py.split_ws. pose proof (split_ws_go_length (list_ascii_of_string s) []) as H.
  simpl in H. lia.
Qed.

Lemma interleave_piece_length p0 rest p :
  In p (p0 :: map snd rest) -> (List.length p <= List.length (interleave p0 rest))%nat.
Proof.
  revert p0. induction rest as [|[m q] rest IH]; intros p0 Hin; simpl in *.
  - destruct Hin as [<-|[]]. lia.
  - rewrite !length_app. destruct Hin as [<-|Hin]; [lia|].
    specialize (IH q Hin). lia.
Qed.

Lemma heading_split_section_length (text section : string) :
  In section (heading_split text) ->
  (List.length (list_ascii_of_string section) <= List.length (list_ascii_of_string text))%nat.
Proof.
  intros Hin.
  destruct (heading_split_go_shape (S (List.length (list_ascii_of_string text))) []
              true (list_ascii_of_string text) [] ltac:(lia) (fun _ => eq_refl))
    as [p0 [rest [Hp [_ [Hi _]]]]].
  simpl in Hi. rewrite Hi. apply interleave_piece_length.
  unfold heading_split in Hin. rewrite <- Hp. apply in_map. exact Hin.
Qed.

(** ** C10: termination of [_chunk_text] *)

(** C10 (counterexample).  With [chunk_size = -1] and [overlap = 0]
    ([overlap >= chunk_size]) the empty text has a single section of
    [0 > -1] words, and the chunker still returns, with the fallback
    chunk [""], whatever the fuel. *)
Lemma chunk_necessity_counterexample :
  (-1 <= 0)%Z /\ heading_split "" = [""] /\
  (-1 < Z.of_nat (List.length (Py.split_ws "")))%Z /\
  forall fuel, _chunk_text fuel "" (-1) 0 = Some [""].
Proof.
  split; [lia|]. split; [reflexivity|]. split; [vm_compute; reflexivity|].
  intros fuel. reflexivity.
Qed.

(** C10 (amended).  With [overlap < chunk_size] (any integers), the
    chunker returns on every text, with fuel one more than the text's
    length.  With [overlap >= chunk_size] and a section holding at least
    one word and more than [chunk_size] words, it never returns: no fuel is
    enough. *)
Theorem chunk_text_termination (text : string) (chunk_size overlap : Z) :
  ((overlap < chunk_size)%Z ->
   forall fuel, (List.length (list_ascii_of_string text) < fuel)%nat ->
   _chunk_text fuel text chunk_size overlap <> None) /\
  ((chunk_size <= overlap)%Z ->
   (exists section, In section (heading_split text) /\ Py.split_ws section <> [] /\
      (chunk_size < Z.of_nat (List.length (Py.split_ws section)))%Z) ->
   forall fuel, _chunk_text fuel text chunk_size overlap = None).
Proof.
  split.
  - intros Hov fuel Hfuel.
    assert (Hs : sections_loop fuel (heading_split text) chunk_size overlap <> None).
    { apply sections_loop_terminates; [exact Hov|].
      apply Forall_forall. intros section Hin.
      pose proof (split_ws_length section).
      pose proof (heading_split_section_length text section Hin). lia. }
    unfold _chunk_text.
    destruct (sections_loop fuel (heading_split text) chunk_size overlap) as [[|c cs]|];
      [discriminate | discriminate | contradiction].
  - intros Hov [section [Hin [Hne Hn]]] fuel.
    unfold _chunk_text.
    rewrite (sections_loop_diverges (heading_split text) chunk_size overlap fuel section Hin Hne).
    + reflexivity.
    + apply window_loop_diverges; [exact Hov | | exact Hn | lia].
      destruct (Py.split_ws section); [contradiction | simpl; lia].
Qed.

(** Witness for C10: ["a b c"] with windows of one word overlapping by one
    never returns; with no overlap it returns. *)
Lemma chunk_text_termination_witness :
  _chunk_text 6 "a b c" 1 0 <> None /\ _chunk_text 6 "a b c" 1 1 = None.
Proof.
  split.
  - apply (proj1 (chunk_text_termination "a b c" 1 0) ltac:(lia) 6%nat ltac:(vm_compute; lia)).
  - apply (proj2 (chunk_text_termination "a b c" 1 1) ltac:(lia)).
    exists "a b c". split; [vm_compute; tauto|].
    split; [vm_compute; discriminate | vm_compute; reflexivity].
Defined.

(** * Further properties of the memory subsystem *)

(** ** Tokens *)

(** A character [_tokenize] can emit: a token character that is not an
    upper-case letter. *)
Definition lower_token_char (c : ascii) : bool :=
  is_token_char c && negb ((65 <=? nat_of_ascii c) && (nat_of_ascii c <=? 90))%nat.

Lemma string_length_of_list (l : list ascii) :
  String.length (string_of_list_ascii l) = List.length l.
Proof. induction l as [|c l IH]; simpl; [reflexivity | rewrite IH; reflexivity]. Qed.

Lemma findall_go_chars (cs cur : list ascii) :
  Forall (fun c => is_token_char c = true) cur ->
  Forall (fun t => list_ascii_of_string t <> [] /\
                   Forall (fun c => is_token_char c = true) (list_ascii_of_string t))
         (findall_go cs cur).
Proof.
  assert (Hpiece : forall cur, Forall (fun c => is_token_char c = true) cur -> cur <> [] ->
            list_ascii_of_string (string_of_list_ascii (rev cur)) <> [] /\
            Forall (fun c => is_token_char c = true)
                   (list_ascii_of_string (string_of_list_ascii (rev cur)))).
  { intros cur0 Hc Hne. rewrite list_ascii_of_string_of_list. split.
    - intros E. apply Hne. apply (f_equal (@rev ascii)) in E.
      rewrite rev_involutive in E. exact E.
    - apply Forall_rev. exact Hc. }
  revert cur. induction cs as [|c cs IH]; intros cur Hc; simpl.
  - destruct cur as [|c0 cur]; [constructor|].
    constructor; [apply Hpiece; [exact Hc | discriminate] | constructor].
  - destruct (is_token_char c) eqn:Ht.
    + apply IH. constructor; assumption.
    + destruct cur as [|c0 cur]; [apply IH; constructor|].
      constructor; [apply Hpiece; [exact Hc | discriminate] | apply IH; constructor].
Qed.

Lemma lower_char_token (c : ascii) :
  is_token_char c = true -> lower_token_char (lower_char c) = true.
Proof.
  unfold lower_token_char, lower_char. intros Ht.
  destruct ((65 <=? nat_of_ascii c) && (nat_of_ascii c <=? 90))%nat eqn:Hu.
  - apply andb_true_iff in Hu as [H1 H2]. apply Nat.leb_le in H1. apply Nat.leb_le in H2.
    unfold is_token_char.
    rewrite nat_ascii_embedding by lia.
    replace ((65 <=? nat_of_ascii c + 32) && (nat_of_ascii c + 32 <=? 90))%nat with false
      by (symmetry; apply andb_false_iff; right; apply Nat.leb_gt; lia).
    replace ((97 <=? nat_of_ascii c + 32) && (nat_of_ascii c + 32 <=? 122))%nat with true
      by (symmetry; apply andb_true_iff; split; apply Nat.leb_le; lia).
    rewrite orb_true_r. reflexivity.
  - rewrite Ht, Hu. reflexivity.
Qed.

(** ** Sparse weights *)

Lemma log1p_lt (y : R) : 0 < y -> log1p y < y.
Proof.
  intros Hy. unfold log1p. rewrite <- (ln_exp y) at 2.
  apply ln_increasing; [lra|]. apply exp_ineq1. lra.
Qed.

Lemma tfidf_weight_lt_1 (c n : nat) :
  (0 < c)%nat -> (0 < n)%nat ->
  INR c / INR n * log1p (1 / (INR c / INR n)) < 1.
Proof.
  intros Hc Hn. apply lt_0_INR in Hc. apply lt_0_INR in Hn.
  set (x := INR c / INR n).
  assert (Hx : 0 < x) by (apply Rdiv_lt_0_compat; assumption).
  assert (Hy : 0 < 1 / x) by (apply Rdiv_lt_0_compat; lra).
  pose proof (log1p_lt (1 / x) Hy) as H.
  apply Rmult_lt_compat_l with (r := x) in H; [|exact Hx].
  replace (x * (1 / x)) with 1 in H by (field; lra). exact H.
Qed.

(** ** Cosine *)

Lemma sum_sq_get_keys (a : sparse) :
  NoDup (map fst a) ->
  sumR (map (fun k => get a k * get a k) (map fst a)) = sumR (map (fun '(_, v) => v * v) a).
Proof.
  pose proof (sum_sq_filter_keys (fun _ => true) a) as _.
  induction a as [|[k v] a IH]; simpl; intros Hnd; [reflexivity|].
  inversion Hnd as [|? ? Hnotin Hnd']; subst.
  unfold get at 1 2; simpl. destruct (string_dec k k); [|congruence].
  f_equal. rewrite <- (IH Hnd'). f_equal. apply map_ext_in. intros k0 Hk0.
  unfold get; simpl. destruct (string_dec k0 k) as [->|]; [contradiction | reflexivity].
Qed.

Lemma common_keys_self (a : sparse) : common_keys a a = map fst a.
Proof.
  unfold common_keys. apply forallb_filter_id, forallb_forall.
  intros k Hk. apply has_key_iff. exact Hk.
Qed.

Lemma cosine_self (a : sparse) :
  NoDup (map fst a) -> 0 < magnitude a -> _cosine_sparse a a = 1.
Proof.
  intros Hnd Hm. unfold _cosine_sparse. rewrite common_keys_self.
  destruct (map fst a) as [|k ks] eqn:Ek.
  - exfalso. destruct a; [|discriminate]. unfold magnitude in Hm. simpl in Hm.
    rewrite sqrt_0 in Hm. lra.
  - rewrite <- Ek. rewrite <- Ek in Hnd.
    destruct (Req_EM_T (magnitude a) 0) as [E|_]; [lra|].
    rewrite sum_sq_get_keys by exact Hnd. rewrite <- magnitude_sq. field. lra.
Qed.

Lemma sum_sq_ge_entry (a : sparse) k v :
  In (k, v) a -> v * v <= sumR (map (fun '(_, v) => v * v) a).
Proof.
  induction a as [|[k0 v0] a IH]; simpl; [tauto|].
  intros [E|H].
  - injection E as -> ->. pose proof (sum_sq_nonneg a). lra.
  - specialize (IH H). pose proof (Rle_0_sqr v0). unfold Rsqr in *. lra.
Qed.

Lemma tfidf_embed_has_positive (text : string) :
  _tokenize text <> [] -> exists k v, In (k, v) (_tfidf_embed text) /\ 0 < v.
Proof.
  intros Hne. unfold _tfidf_embed.
  destruct (_tokenize text) as [|t ts] eqn:Et; [contradiction|].
  rewrite map_map.
  assert (Hl : Py.lookup t (Counter (t :: ts)) = Some (count_occ string_dec (t :: ts) t)).
  { rewrite Counter_lookup. simpl. destruct (string_dec t t); [|congruence]. reflexivity. }
  apply lookup_In in Hl.
  set (c := count_occ string_dec (t :: ts) t) in *.
  eexists t, _. split.
  - apply (in_map (fun x => let '(term, tf_val) := let '(term, count) := x in
                       (term, INR count / INR (List.length (t :: ts))) in
                     (term, tf_val * log1p (1 / tf_val))) _ _ Hl).
  - apply tfidf_weight_pos; [|simpl; lia].
    unfold c. simpl. destruct (string_dec t t); [lia | congruence].
Qed.

Lemma tfidf_magnitude_pos (text : string) :
  _tokenize text <> [] -> 0 < magnitude (_tfidf_embed text).
Proof.
  intros Hne. unfold magnitude. apply sqrt_lt_R0.
  destruct (tfidf_embed_has_positive text Hne) as [k [v [Hin Hv]]].
  pose proof (sum_sq_ge_entry _ k v Hin). nra.
Qed.

Lemma string_length_list (s : string) :
  String.length s = List.length (list_ascii_of_string s).
Proof. induction s as [|c s IH]; simpl; [reflexivity | rewrite IH; reflexivity]. Qed.

(** [_tokenize]: every token has at least two characters, all from
    [[a-z0-9_-]] (upper-case letters are lowered). *)
Theorem tokenize_tokens_shape (text : string) :
  Forall (fun t => (2 <= String.length t)%nat /\
                   Forall (fun c => lower_token_char c = true) (list_ascii_of_string t))
         (_tokenize text).
Proof.
  unfold _tokenize. apply Forall_map.
  pose proof (findall_go_chars (list_ascii_of_string text) [] (Forall_nil _)) as H.
  unfold token_findall.
  induction H as [|t ts [_ Ht] _ IH]; simpl; [constructor|].
  destruct (1 <? String.length t)%nat eqn:Hl; [|exact IH].
  constructor; [|exact IH].
  apply Nat.ltb_lt in Hl. unfold lower.
  rewrite string_length_of_list, list_ascii_of_string_of_list, length_map.
  rewrite string_length_list in Hl. split; [lia|].
  apply Forall_map. apply (Forall_impl _ (fun c Hc => lower_char_token c Hc)). exact Ht.
Qed.

(** [_tfidf_embed]: every weight lies strictly between 0 and 1. *)
Theorem tfidf_weights_in_unit_interval (text : string) t w :
  In (t, w) (_tfidf_embed text) -> 0 < w < 1.
Proof.
  unfold _tfidf_embed. destruct (_tokenize text) as [|t0 ts]; [simpl; tauto|].
  rewrite map_map. intros Hin. apply in_map_iff in Hin as [[k c] [E Hkc]].
  injection E as _ <-.
  pose proof (proj1 (Forall_forall _ _) (Counter_pos (t0 :: ts)) _ Hkc) as Hc.
  cbn [snd] in Hc.
  assert (Hn : (0 < List.length (t0 :: ts))%nat) by (simpl; lia).
  split; [exact (tfidf_weight_pos c _ Hc Hn) | exact (tfidf_weight_lt_1 c _ Hc Hn)].
Qed.

(** Witness for [tfidf_weights_in_unit_interval]: the first entry of the
    embedding of ["autonomous agents"]. *)
Lemma tfidf_weights_in_unit_interval_witness :
  0 < snd (hd ("", 0) (_tfidf_embed "autonomous agents")) < 1.
Proof.
  destruct (_tfidf_embed "autonomous agents") as [|[t w] l] eqn:E.
  - exfalso. unfold _tfidf_embed in E.
    change (_tokenize "autonomous agents") with ["autonomous"; "agents"] in E.
    simpl in E. discriminate.
  - apply (tfidf_weights_in_unit_interval "autonomous agents" t w).
    rewrite E. left. reflexivity.
Defined.

(** [_cosine_sparse] is symmetric on vectors without repeated keys. *)
Theorem cosine_sparse_symmetric (a b : sparse) :
  NoDup (map fst a) -> NoDup (map fst b) -> _cosine_sparse a b = _cosine_sparse b a.
Proof.
  intros Ha Hb. pose proof (common_keys_perm a b Ha Hb) as Hp.
  unfold _cosine_sparse.
  destruct (common_keys a b) as [|k ks] eqn:Eab, (common_keys b a) as [|k' ks'] eqn:Eba.
  - reflexivity.
  - apply Permutation_nil in Hp. discriminate.
  - apply Permutation_sym, Permutation_nil in Hp. discriminate.
  - rewrite <- Eab, <- Eba. rewrite <- Eab, <- Eba in Hp.
    rewrite (sumR_perm _ _ _ Hp).
    destruct (Req_EM_T (magnitude a) 0), (Req_EM_T (magnitude b) 0); try reflexivity.
    f_equal; [f_equal; apply map_ext; intros; ring | ring].
Qed.

(** Witness for [cosine_sparse_symmetric]: the embeddings of two texts. *)
Lemma cosine_sparse_symmetric_witness :
  _cosine_sparse (_tfidf_embed "autonomous agents govern policy")
    (_tfidf_embed "agents forecast policy") =
  _cosine_sparse (_tfidf_embed "agents forecast policy")
    (_tfidf_embed "autonomous agents govern policy").
Proof. apply cosine_sparse_symmetric; apply tfidf_embed_NoDup. Defined.

(** ** Query results *)

Lemma firstn_In_helper {A} (n : nat) (l : list A) x : In x (firstn n l) -> In x l.
Proof.
  intros H. rewrite <- (firstn_skipn n l). apply in_or_app. left. exact H.
Qed.

Lemma query_as_firstn cfg env st q top_k :
  (0 <= top_k)%Z ->
  query cfg env st q top_k =
  firstn (Z.to_nat top_k) (sort_desc (scored_candidates cfg env st q)).
Proof.
  intros Hk. unfold query. destruct (_index st) as [|e idx] eqn:E.
  - unfold scored_candidates. rewrite E. simpl. destruct (Z.to_nat top_k); reflexivity.
  - apply slice_to_nonneg. exact Hk.
Qed.

(** The [scored] list of [query_filtered], before sorting. *)
Definition scored_filtered (cfg : Config) (env : Env) (st : VectorStore)
    (q : string) (mf : option (list (string * json))) : list (R * Document) :=
  map (fun doc => (_cosine_sparse (sparse_vec (embed_text cfg env q))
                     (sparse_vec (embedding doc)), doc))
      (filter (passes_filter mf) (map snd (_index st))).

Lemma filter_candidates (mf : option (list (string * json))) (l : list Document) :
  match mf with
  | Some ((_ :: _) as f) => filter (metadata_matches f) l
  | _ => l
  end = filter (passes_filter mf) l.
Proof.
  destruct mf as [[|x f]|]; try reflexivity;
    symmetry; apply forallb_filter_id, forallb_forall; reflexivity.
Qed.

Lemma query_filtered_as_firstn cfg env st q top_k mf :
  (0 <= top_k)%Z ->
  query_filtered cfg env st q top_k mf =
  firstn (Z.to_nat top_k) (sort_desc (scored_filtered cfg env st q mf)).
Proof.
  intros Hk. unfold query_filtered, scored_filtered.
  destruct (_index st) as [|e idx] eqn:E.
  - simpl. destruct (Z.to_nat top_k); reflexivity.
  - rewrite slice_to_nonneg by exact Hk. cbv zeta. rewrite filter_candidates.
    reflexivity.
Qed.

Lemma query_filtered_None cfg env st q top_k :
  query_filtered cfg env st q top_k None = query cfg env st q top_k.
Proof.
  unfold query_filtered, query, scored_candidates.
  destruct (_index st); [reflexivity|].
  reflexivity.
Qed.

(** [query] with [top_k >= 0] and any [metadata_filter] returns
    [min(n, top_k)] pairs, [n] the number of documents that pass the
    filter (all of them with no filter); each pairs a document of the store
    that passes the filter with the cosine of the query's sparse vector and
    the document's sparse vector. *)
Theorem query_results_from_store cfg env st q top_k mf :
  (0 <= top_k)%Z ->
  List.length (query_filtered cfg env st q top_k mf) =
    Nat.min (List.length (filter (passes_filter mf) (map snd (_index st)))) (Z.to_nat top_k) /\
  Forall (fun p => (exists k, In (k, snd p) (_index st)) /\
                   passes_filter mf (snd p) = true /\
                   fst p = _cosine_sparse (_tfidf_embed q) (sparse_vec (embedding (snd p))))
         (query_filtered cfg env st q top_k mf).
Proof.
  intros Hk. rewrite query_filtered_as_firstn by exact Hk.
  pose proof (sort_desc_perm (scored_filtered cfg env st q mf)) as Hp.
  split.
  - rewrite length_firstn, (Permutation_length Hp). unfold scored_filtered.
    rewrite length_map. lia.
  - apply Forall_forall. intros p Hin.
    apply firstn_In_helper in Hin.
    apply (Permutation_in _ Hp) in Hin.
    unfold scored_filtered in Hin. apply in_map_iff in Hin as [d [<- Hd]].
    apply filter_In in Hd as [Hd Hpass].
    apply in_map_iff in Hd as [[k d'] [Ed Hkd]]. simpl in Ed. subst d'.
    split; [exists k; exact Hkd | split; [exact Hpass | reflexivity]].
Qed.

(** Witness for [query_results_from_store]: a filter on ["source"] that
    one of two documents passes. *)
Lemma query_results_from_store_witness :
  List.length (query_filtered Fixtures.cfg_tfidf Fixtures.env0 Fixtures.store_notes
                 "sunny policy" 5 (Some [("source", JStr "notes")])) =
  Nat.min (List.length (filter (passes_filter (Some [("source", JStr "notes")]))
                          (map snd (_index Fixtures.store_notes)))) 5.
Proof.
  exact (proj1 (query_results_from_store Fixtures.cfg_tfidf Fixtures.env0
                  Fixtures.store_notes "sunny policy" 5 (Some [("source", JStr "notes")])
                  ltac:(lia))).
Defined.

(** Querying with the content a document was embedded from (at least one
    token) returns that document with score exactly 1, when the document
    passes [metadata_filter] (any document does with no filter) and
    [top_k] covers the store. *)
Theorem query_own_content_scores_one cfg env st q top_k mf k doc :
  In (k, doc) (_index st) ->
  passes_filter mf doc = true ->
  sparse_vec (embedding doc) = _tfidf_embed q ->
  _tokenize q <> [] ->
  (Z.of_nat (count st) <= top_k)%Z ->
  In (1, doc) (query_filtered cfg env st q top_k mf).
Proof.
  intros Hin Hpass Hsp Htok Hk.
  rewrite query_filtered_as_firstn by lia.
  rewrite firstn_all2.
  2:{ rewrite (Permutation_length (sort_desc_perm _)). unfold scored_filtered.
      rewrite length_map.
      pose proof (filter_length_le (passes_filter mf) (map snd (_index st))) as Hf.
      rewrite length_map in Hf. unfold count in Hk. lia. }
  apply (Permutation_in _ (Permutation_sym (sort_desc_perm _))).
  unfold scored_filtered.
  replace 1 with (_cosine_sparse (sparse_vec (embed_text cfg env q)) (sparse_vec (embedding doc))).
  - apply (in_map (fun d => (_cosine_sparse (sparse_vec (embed_text cfg env q))
                               (sparse_vec (embedding d)), d))).
    apply filter_In. split; [|exact Hpass].
    apply (in_map snd _ (k, doc)). exact Hin.
  - rewrite Hsp. apply cosine_self; [apply tfidf_embed_NoDup | apply tfidf_magnitude_pos, Htok].
Qed.

(** Witness for [query_own_content_scores_one]: [doc-a] has
    [{"source": "notes"}] and the filter asks for it. *)
Lemma query_own_content_scores_one_witness :
  In (1, Fixtures.doc_a_notes)
     (query_filtered Fixtures.cfg_tfidf Fixtures.env0 Fixtures.store_notes
            "autonomous agents govern policy" 2 (Some [("source", JStr "notes")])).
Proof.
  apply (query_own_content_scores_one Fixtures.cfg_tfidf Fixtures.env0 Fixtures.store_notes
           "autonomous agents govern policy" 2 (Some [("source", JStr "notes")])
           "doc-a" Fixtures.doc_a_notes).
  - simpl. left. reflexivity.
  - reflexivity.
  - reflexivity.
  - vm_compute. discriminate.
  - vm_compute. discriminate.
Defined.

(** ** Store operations *)

Lemma lookup_dict_del_other {V} (k k' : string) (d : list (string * V)) :
  k' <> k -> Py.lookup k' (dict_del k d) = Py.lookup k' d.
Proof.
  intros Hne. induction d as [|[k0 v0] d IH]; simpl; [reflexivity|].
  destruct (string_dec k k0) as [->|]; simpl.
  - destruct (string_dec k' k0); [contradiction | reflexivity].
  - destruct (string_dec k' k0); [reflexivity | exact IH].
Qed.

Lemma lookup_dict_del_same {V} (k : string) (d : list (string * V)) :
  NoDup (map fst d) -> Py.lookup k (dict_del k d) = None.
Proof.
  induction d as [|[k0 v0] d IH]; simpl; intros Hnd; [reflexivity|].
  inversion Hnd as [|? ? Hn Hnd']; subst.
  destruct (string_dec k k0) as [->|Hne]; simpl.
  - apply lookup_None_iff. exact Hn.
  - destruct (string_dec k k0); [contradiction | exact (IH Hnd')].
Qed.

Lemma length_dict_del {V} (k : string) (d : list (string * V)) :
  In k (map fst d) -> S (List.length (dict_del k d)) = List.length d.
Proof.
  induction d as [|[k0 v0] d IH]; simpl; [tauto|].
  destruct (string_dec k k0) as [->|Hne]; [reflexivity|].
  intros [E|H]; [congruence|]. simpl. rewrite (IH H). reflexivity.
Qed.

(** [upsert] then [get]: the id now maps to the returned document, every
    other id keeps its document, and [count()] grows by one exactly when
    the id was new. *)
Theorem upsert_get cfg env st doc_id content_ md cid rid skip :
  let r := upsert cfg env st doc_id content_ md cid rid skip in
  get_doc (fst (fst r)) doc_id = Some (snd r) /\
  (forall k, k <> doc_id -> get_doc (fst (fst r)) k = get_doc st k) /\
  count (fst (fst r)) =
    (match get_doc st doc_id with Some _ => count st | None => S (count st) end).
Proof.
  intros r. split; [|split].
  - unfold get_doc; simpl. apply lookup_dict_set_same.
  - intros k Hk. unfold get_doc; simpl. apply lookup_dict_set_other. exact Hk.
  - unfold count, get_doc; simpl. rewrite <- !(length_map fst), keys_dict_set.
    destruct (Py.lookup doc_id (_index st)) eqn:E.
    + apply lookup_In in E. apply (in_map fst) in E.
      destruct (in_dec string_dec doc_id (map fst (_index st))); [reflexivity | contradiction].
    + apply lookup_None_iff in E.
      destruct (in_dec string_dec doc_id (map fst (_index st))); [contradiction|].
      rewrite length_app. simpl. lia.
Qed.

(** [delete] on a store the program can hold: it returns [True] exactly
    when the id was present; afterwards [get] of the id is [None], every
    other id keeps its document, [count()] drops by one when the id was
    present, and the file is rewritten only in that case. *)
Theorem delete_get cfg st doc_id :
  reachable cfg st ->
  let r := delete st doc_id in
  snd r = (match get_doc st doc_id with Some _ => true | None => false end) /\
  get_doc (fst (fst r)) doc_id = None /\
  (forall k, k <> doc_id -> get_doc (fst (fst r)) k = get_doc st k) /\
  (if snd r then S (count (fst (fst r))) = count st /\ snd (fst r) = Some (_flush (fst (fst r)))
   else fst (fst r) = st /\ snd (fst r) = None).
Proof.
  intros Hr r. destruct (reachable_wf cfg st Hr) as [Hnd _].
  unfold r, delete, get_doc. destruct (Py.lookup doc_id (_index st)) eqn:E; simpl.
  - split; [reflexivity|]. split; [apply lookup_dict_del_same, Hnd|]. split.
    + intros k Hk. apply lookup_dict_del_other. exact Hk.
    + split; [|reflexivity]. unfold count. simpl. apply length_dict_del.
      apply lookup_In in E. apply (in_map fst) in E. exact E.
  - split; [reflexivity|]. split; [exact E|].
    split; [intros; reflexivity | split; reflexivity].
Qed.

(** Witness for [delete_get]: a fresh store after one [upsert] of
    ["mem-001"], then [delete("mem-001")], which finds the id. *)
Lemma delete_get_witness :
  let st := fst (fst (upsert_call Fixtures.cfg_tfidf
                        (new_store (fun _ => Fixtures.env0) None) Fixtures.call_mem1)) in
  let r := delete st "mem-001" in
  snd r = true /\ S (count (fst (fst r))) = count st /\
  snd (fst r) = Some (_flush (fst (fst r))) /\ get_doc (fst (fst r)) "mem-001" = None.
Proof.
  intros st r.
  pose proof (delete_get Fixtures.cfg_tfidf st "mem-001"
                (reach_upsert _ _ _ (reach_new _ _ _))) as H.
  cbv zeta in H. fold r in H. destruct H as [_ [Hg [_ Hif]]].
  assert (Ht : snd r = true) by reflexivity.
  rewrite Ht in Hif. destruct Hif as [Hc Hf].
  split; [exact Ht | split; [exact Hc | split; [exact Hf | exact Hg]]].
Defined.

Lemma run_ops_shape cfg envs file0 ops st file :
  (st = new_store envs file0 /\ file = file0) \/
  (file = Some (_flush st) /\ wf_index (_index st)) ->
  let r := run_ops cfg ops st file in
  (fst r = new_store envs file0 /\ snd r = file0) \/
  (snd r = Some (_flush (fst r)) /\ wf_index (_index (fst r))).
Proof.
  revert st file. induction ops as [|op ops IH]; intros st file Hinv; [exact Hinv|].
  assert (Hwf : wf_index (_index st)).
  { destruct Hinv as [[-> _]|[_ H]]; [apply wf_new_store | exact H]. }
  destruct op as [c|k|]; cbn [run_ops].
  - destruct (upsert_call cfg st c) as [[st' lines] doc] eqn:Eu.
    apply IH. right.
    assert (Hl : lines = _flush st').
    { unfold upsert_call, upsert in Eu. injection Eu as <- <- _. reflexivity. }
    split; [rewrite Hl; reflexivity|].
    pose proof (wf_upsert cfg st c Hwf) as H. rewrite Eu in H. exact H.
  - destruct (delete st k) as [[st' written] b] eqn:Ed.
    apply IH. pose proof (wf_delete st k Hwf) as Hw. rewrite Ed in Hw. simpl in Hw.
    unfold delete in Ed. destruct (Py.lookup k (_index st)).
    + injection Ed as <- <- _. right. split; [reflexivity | exact Hw].
    + injection Ed as <- <- _. exact Hinv.
  - apply IH. right. split; [reflexivity | split; constructor].
Qed.

(** Persistence across any sequence of [upsert], [delete] and [clear]
    calls: a store opened afresh on the resulting file has the same ids, in
    the same order, and the same content under each id. *)
Theorem reopen_after_ops_same_ids_contents cfg envs envs' file ops :
  let r := run_ops cfg ops (new_store envs file) file in
  let reopened := new_store envs' (snd r) in
  map fst (_index reopened) = map fst (_index (fst r)) /\
  forall k, option_map content (get_doc reopened k) = option_map content (get_doc (fst r) k).
Proof.
  intros r reopened.
  assert (E : ids_contents (_index reopened) = ids_contents (_index (fst r))).
  { unfold reopened, r.
    destruct (run_ops_shape cfg envs file ops (new_store envs file) file
                (or_introl (conj eq_refl eq_refl))) as [[Es Ef]|[Es Hwf]].
    - rewrite Es, Ef. simpl. destruct file as [ls|]; simpl; [|reflexivity].
      apply load_lines_env_indep. reflexivity.
    - rewrite Es. simpl. unfold _flush.
      rewrite load_lines_flush; [reflexivity | exact Hwf | simpl; tauto]. }
  split.
  - rewrite <- !ids_contents_keys, E. reflexivity.
  - intros k. unfold get_doc. rewrite <- !ids_contents_lookup, E. reflexivity.
Qed.

(** ** Records on disk *)

Lemma str_or_nonempty (s dflt : string) : s <> ""%string -> str_or (Some s) dflt = s.
Proof. destruct s; [contradiction | reflexivity]. Qed.

(** [Document.from_dict(doc.to_dict())] gives the document back unchanged
    when its [timestamp], [correlation_id] and [run_id] are non-empty
    strings (an empty one is replaced by the clock, a new uuid or
    [GITHUB_RUN_ID]). *)
Theorem document_dict_round_trip env d :
  timestamp d <> ""%string -> correlation_id d <> ""%string -> run_id d <> ""%string ->
  from_dict env (to_dict d) = Some d.
Proof.
  intros Ht Hc Hr. unfold from_dict, to_dict. cbn [Py.lookup].
  repeat match goal with
         | |- context [string_dec ?a ?b] =>
             let H := fresh in
             destruct (string_dec a b) as [H|H];
             [try discriminate H | try (exfalso; apply H; reflexivity)]
         end.
  rewrite embedding_of_json_of_embedding. unfold opt_str_field. cbn [Py.lookup].
  repeat match goal with
         | |- context [string_dec ?a ?b] =>
             let H := fresh in
             destruct (string_dec a b) as [H|H];
             [try discriminate H | try (exfalso; apply H; reflexivity)]
         end.
  unfold make_document. rewrite (str_or_nonempty _ _ Hr), !str_or_nonempty by assumption.
  destruct d; reflexivity.
Qed.

(** Witness for [document_dict_round_trip]. *)
Lemma document_dict_round_trip_witness :
  from_dict Fixtures.env0
    (to_dict (mkDocument "doc-r" "text" _empty_embedding [] "t0" "c0" "r0")) =
  Some (mkDocument "doc-r" "text" _empty_embedding [] "t0" "c0" "r0").
Proof. apply document_dict_round_trip; simpl; discriminate. Defined.

Lemma load_lines_app envs i ls1 ls2 acc :
  load_lines envs i (app ls1 ls2) acc =
  load_lines envs (i + List.length ls1) ls2 (load_lines envs i ls1 acc).
Proof.
  revert i acc. induction ls1 as [|l ls1 IH]; intros i acc; simpl.
  - rewrite Nat.add_0_r. reflexivity.
  - rewrite IH. f_equal. lia.
Qed.

Lemma load_lines_lookup_other envs i ls acc k :
  (forall j env d', In (JsonLine j) ls -> from_dict env j = Some d' -> id d' <> k) ->
  Py.lookup k (load_lines envs i ls acc) = Py.lookup k acc.
Proof.
  revert i acc. induction ls as [|l ls IH]; intros i acc Hls; simpl; [reflexivity|].
  rewrite IH by (intros j env d' Hj; apply (Hls j env d'); right; exact Hj).
  destruct l as [| |j]; try reflexivity.
  destruct (from_dict (envs i) j) as [doc|] eqn:E; [|reflexivity].
  apply lookup_dict_set_other. intros Ek. symmetry in Ek.
  exact (Hls j (envs i) doc (or_introl eq_refl) E Ek).
Qed.

Lemma from_dict_id env fs d' :
  from_dict env (JObj fs) = Some d' -> In ("id", JStr (id d')) fs.
Proof.
  unfold from_dict.
  destruct (Py.lookup "id" fs) as [[| | |i| |]|] eqn:Ei; try discriminate.
  destruct (Py.lookup "content" fs) as [[| | |c| |]|]; try discriminate.
  repeat match goal with |- context [match ?x with _ => _ end] => destruct x end;
    try discriminate.
  intros [= <-]. simpl. apply lookup_In. exact Ei.
Qed.

(** [_load] keeps the last record of an id: if no later line of the file
    is a JSON object with the field ["id"] set to that id, the reopened
    store holds that record's content under the id, whatever came before
    and whatever the later lines hold otherwise. *)
Theorem load_last_record_wins envs ls1 d ls2 :
  (forall fs, In (JsonLine (JObj fs)) ls2 -> ~ In ("id", JStr (id d)) fs) ->
  option_map content
    (get_doc (new_store envs (Some (app ls1 (JsonLine (to_dict d) :: ls2)))) (id d)) =
  Some (content d).
Proof.
  intros Hls. unfold get_doc, new_store, _load. cbn [_index].
  rewrite load_lines_app. cbn [load_lines].
  rewrite load_lines_lookup_other.
  2:{ intros j env d' Hj Hd Eid. destruct j as [| | | | |fs]; try discriminate.
      apply (Hls fs Hj). rewrite <- Eid. exact (from_dict_id env fs d' Hd). }
  destruct (from_dict_to_dict (envs (0 + List.length ls1)%nat) d) as [d' [E [Ei Ec]]].
  rewrite E, Ei, lookup_dict_set_same. simpl. rewrite Ec. reflexivity.
Qed.

(** Witness for [load_last_record_wins]: a file holding an older version of
    [doc-a], then [doc-a], then [doc-b], then a line whose [content] is not
    a string, then a line with no ["id"] field. *)
Lemma load_last_record_wins_witness :
  option_map content
    (get_doc (new_store (fun _ => Fixtures.env0)
       (Some (app [JsonLine (to_dict (mkDocument "doc-a" "old text" _empty_embedding [] "t" "c" ""))]
                  (JsonLine (to_dict Fixtures.doc_a) ::
                   [JsonLine (to_dict Fixtures.doc_b);
                    JsonLine (JObj [("id", JStr "doc-c"); ("content", JNum 3)]);
                    JsonLine (JObj [("content", JStr "new")])]))))
       (id Fixtures.doc_a)) =
  Some (content Fixtures.doc_a).
Proof.
  apply load_last_record_wins. intros fs Hin.
  simpl in Hin. destruct Hin as [Ej|[Ej|[Ej|[]]]]; injection Ej as <-; simpl;
    intros H; repeat destruct H as [H|H]; try discriminate; exact H.
Defined.

Definition is_json_line (l : line) : bool :=
  match l with JsonLine _ => true | _ => false end.

Lemma load_lines_filter envs envs' ls i i' acc acc' :
  ids_contents acc = ids_contents acc' ->
  ids_contents (load_lines envs i ls acc) =
  ids_contents (load_lines envs' i' (filter is_json_line ls) acc').
Proof.
  revert i i' acc acc'. induction ls as [|l ls IH]; intros i i' acc acc' Hacc;
    [exact Hacc|].
  destruct l as [| |j]; cbn [filter is_json_line load_lines].
  - apply IH. exact Hacc.
  - apply IH. exact Hacc.
  - apply IH.
    pose proof (from_dict_env_indep (envs i) (envs' i') j) as E.
    destruct (from_dict (envs i) j) as [d|], (from_dict (envs' i') j) as [d'|];
      simpl in E; try discriminate; [|exact Hacc].
    injection E as Eid Ec. unfold ids_contents in *.
    rewrite !dict_set_map_values, Hacc, Eid, Ec. reflexivity.
Qed.

(** [_load] skips blank and unparsable lines without losing any record: the
    ids and contents loaded are those of the file with such lines removed. *)
Theorem load_skips_bad_lines envs envs' ls :
  ids_contents (_load envs (Some ls)) =
  ids_contents (_load envs' (Some (filter is_json_line ls))).
Proof. apply load_lines_filter. reflexivity. Qed.

(** ** Documents stored without an embedding *)

Lemma slice_In {A} (xs : list A) i j x : In x (Py.slice xs i j) -> In x xs.
Proof.
  unfold Py.slice. intros H. apply firstn_In_helper in H.
  rewrite <- (firstn_skipn (Z.to_nat (Py.slice_bound (Z.of_nat (List.length xs)) i)) xs).
  apply in_or_app. right. exact H.
Qed.

Lemma query_In_scored cfg env st q top_k p :
  In p (query cfg env st q top_k) ->
  fst p = _cosine_sparse (_tfidf_embed q) (sparse_vec (embedding (snd p))).
Proof.
  unfold query. destruct (_index st) as [|e idx] eqn:Ei; [simpl; tauto|].
  intros Hin. apply slice_In in Hin.
  apply (Permutation_in _ (sort_desc_perm _)) in Hin.
  unfold scored_candidates in Hin. apply in_map_iff in Hin as [d [<- _]]. reflexivity.
Qed.

(** A document upserted with [skip_embed=True] has an empty sparse vector:
    every [query] result that carries it has score 0, whatever the query
    and [top_k]. *)
Theorem upsert_skip_embed_scores_zero cfg env env' st doc_id content_ md cid rid q top_k s :
  let r := upsert cfg env st doc_id content_ md cid rid true in
  In (s, snd r) (query cfg env' (fst (fst r)) q top_k) -> s = 0.
Proof.
  intros r Hin. apply query_In_scored in Hin. cbn [fst snd] in Hin. rewrite Hin.
  assert (E : sparse_vec (embedding (snd r)) = []) by reflexivity. rewrite E.
  apply cosine_zero_cases. left. unfold common_keys.
  induction (map fst (_tfidf_embed q)); [reflexivity | exact IHl].
Qed.

(** Witness for [upsert_skip_embed_scores_zero]: a document stored with
    [skip_embed=True] in an empty store, queried with its own content. *)
Lemma upsert_skip_embed_scores_zero_witness :
  let r := upsert Fixtures.cfg_tfidf Fixtures.env0 (mkVectorStore []) "doc-x"
             "autonomous agents" None None "" true in
  _cosine_sparse (sparse_vec (embed_text Fixtures.cfg_tfidf Fixtures.env0 "autonomous agents"))
                 (sparse_vec (embedding (snd r))) = 0.
Proof.
  intros r.
  apply (upsert_skip_embed_scores_zero Fixtures.cfg_tfidf Fixtures.env0 Fixtures.env0
           (mkVectorStore []) "doc-x" "autonomous agents" None None "" "autonomous agents" 1).
  change (In (_cosine_sparse (sparse_vec (embed_text Fixtures.cfg_tfidf Fixtures.env0
                                             "autonomous agents"))
                             (sparse_vec (embedding (snd r))), snd r)
             [(_cosine_sparse (sparse_vec (embed_text Fixtures.cfg_tfidf Fixtures.env0
                                             "autonomous agents"))
                             (sparse_vec (embedding (snd r))), snd r)]).
  left. reflexivity.
Defined.

(** ** What [_chunk_text] returns *)

Lemma window_loop_nonblank fuel words cs ov start a :
  window_loop fuel words cs ov start = Some a -> Forall nonblank a.
Proof.
  revert start a. induction fuel as [|f IH]; intros start a; cbn [window_loop];
    [discriminate|].
  destruct (start <? _)%Z; [|intros [= <-]; constructor].
  set (chunk := Py.join_space _).
  assert (He : Forall nonblank (if Py.strip_nonempty chunk then [chunk] else [])).
  { destruct (Py.strip_nonempty chunk) eqn:Es; repeat constructor. exact Es. }
  destruct (_ <=? _)%Z; [intros [= <-]; exact He|].
  destruct (window_loop f _ _ _ _) eqn:Er; [intros [= <-] | discriminate].
  apply Forall_app. split; [exact He | exact (IH _ _ Er)].
Qed.

Lemma window_loop_first fuel words cs ov a :
  (0 < cs)%Z -> Forall nonblank words -> words <> [] ->
  window_loop fuel words cs ov 0 = Some a -> a <> [].
Proof.
  intros Hcs Hf Hne. destruct fuel as [|f]; cbn [window_loop]; [discriminate|].
  assert (Hn : (0 < Z.of_nat (List.length words))%Z).
  { destruct words; [congruence | simpl; lia]. }
  assert (Hl : (0 <? Z.of_nat (List.length words))%Z = true) by (apply Z.ltb_lt; exact Hn).
  rewrite Hl, Z.add_0_l.
  replace (Py.slice words 0 (Z.min cs (Z.of_nat (List.length words))))
    with (firstn (Z.to_nat cs) (skipn (Z.to_nat 0) words)).
  2:{ rewrite <- loop_slice_window by lia. reflexivity. }
  pose proof (window_nonblank words cs 0 Hf Hcs ltac:(lia)) as Hw.
  unfold window, nonblank in Hw. rewrite Hw.
  destruct (_ <=? _)%Z; [intros [= <-]; discriminate|].
  destruct (window_loop f _ _ _ _); [intros [= <-]; discriminate | discriminate].
Qed.

Lemma sections_loop_nonblank fuel secs cs ov out :
  sections_loop fuel secs cs ov = Some out -> Forall nonblank out.
Proof.
  revert out. induction secs as [|s secs IH]; intros out; cbn [sections_loop];
    [intros [= <-]; constructor|].
  destruct (Py.split_ws s) as [|w ws]; [apply IH|].
  destruct (window_loop fuel _ cs ov 0) as [a|] eqn:Ea; [|discriminate].
  destruct (sections_loop fuel secs cs ov) as [b|]; [|discriminate].
  intros [= <-]. apply Forall_app. split.
  - exact (window_loop_nonblank _ _ _ _ _ _ Ea).
  - apply IH. reflexivity.
Qed.

Lemma sections_loop_empty fuel secs cs ov out :
  (0 < cs)%Z -> sections_loop fuel secs cs ov = Some out ->
  (out = [] <-> Forall (fun s => Py.split_ws s = []) secs).
Proof.
  intros Hcs. revert out. induction secs as [|s secs IH]; intros out; cbn [sections_loop].
  - intros [= <-]. split; constructor.
  - destruct (Py.split_ws s) as [|w ws] eqn:Ew.
    + intros H. rewrite (IH out H). split; [intros Hf; constructor; assumption|].
      intros Hf; inversion Hf; assumption.
    + destruct (window_loop fuel _ cs ov 0) as [a|] eqn:Ea; [|discriminate].
      destruct (sections_loop fuel secs cs ov) as [b|]; [|discriminate].
      intros [= <-].
      assert (Ha : a <> []).
      { apply (window_loop_first fuel (w :: ws) cs ov a Hcs); [|discriminate|exact Ea].
        rewrite <- Ew. apply split_ws_nonblank. }
      split.
      * intros E. apply app_eq_nil in E as [E _]. contradiction.
      * intros Hf. inversion Hf as [|? ? Hs _]. congruence.
Qed.

(** [_chunk_text] never returns an empty list, and each chunk it returns
    has non-whitespace content unless the result is the single raw slice
    [text[:chunk_size * 6]]. *)
Theorem chunk_text_nonempty fuel text cs ov chunks :
  _chunk_text fuel text cs ov = Some chunks ->
  chunks <> [] /\
  (Forall nonblank chunks \/
   chunks = [string_of_list_ascii
               (Py.slice_to (list_ascii_of_string text) (cs * _CHUNK_FALLBACK_MULTIPLIER)%Z)]).
Proof.
  unfold _chunk_text.
  destruct (sections_loop fuel (heading_split text) cs ov) as [[|c cs']|] eqn:E;
    [intros [= <-] | intros [= <-] | discriminate].
  - split; [discriminate | right; reflexivity].
  - split; [discriminate | left]. exact (sections_loop_nonblank _ _ _ _ _ E).
Qed.

(** Witness for [chunk_text_nonempty]. *)
Lemma chunk_text_nonempty_witness : ["A hello world"%string] <> [].
Proof.
  exact (proj1 (chunk_text_nonempty 10 "# A
hello world" 512 64 ["A hello world"%string] ltac:(vm_compute; reflexivity))).
Defined.

(** ** Ingesting a Markdown file *)

Lemma append_cancel_l (a b c : string) : (a ++ b)%string = (a ++ c)%string -> b = c.
Proof. induction a as [|x a IH]; simpl; [tauto|]. intros [= E]. exact (IH E). Qed.

Lemma str_nat_inj i j : str_nat i = str_nat j -> i = j.
Proof.
  unfold str_nat. intros E. apply (f_equal NilEmpty.uint_of_string) in E.
  rewrite !NilEmpty.usu in E. injection E as E. exact (Unsigned.to_uint_inj _ _ E).
Qed.

Lemma chunk_id_inj label i j :
  (label ++ "::" ++ str_nat i)%string = (label ++ "::" ++ str_nat j)%string -> i = j.
Proof.
  intros E. apply append_cancel_l in E. injection E as E. exact (str_nat_inj _ _ E).
Qed.

Lemma enumerate_from_In {A} (j : nat) (xs : list A) p :
  In p (enumerate_from j xs) -> (j <= fst p < j + List.length xs)%nat.
Proof.
  revert j. induction xs as [|x xs IH]; intros j; simpl; [tauto|].
  intros [<-|H]; [simpl; lia|]. apply IH in H. lia.
Qed.

Lemma enumerate_from_split {A} (j i : nat) (xs : list A) x :
  nth_error xs i = Some x ->
  exists l1 l2, enumerate_from j xs = app l1 (((j + i)%nat, x) :: l2) /\
                Forall (fun p => (j + i < fst p)%nat) l2.
Proof.
  revert j i. induction xs as [|y xs IH]; intros j i H; [destruct i; discriminate|].
  destruct i as [|i]; simpl in H.
  - injection H as ->. exists [], (enumerate_from (S j) xs). split.
    + rewrite Nat.add_0_r. reflexivity.
    + apply Forall_forall. intros p Hp. apply enumerate_from_In in Hp. lia.
  - destruct (IH (S j) i H) as [l1 [l2 [E Hf]]].
    exists ((j, y) :: l1), l2. simpl. rewrite E. split.
    + replace (j + S i)%nat with (S j + i)%nat by lia. reflexivity.
    + eapply Forall_impl; [|exact Hf]. intros p Hp. simpl in Hp. lia.
Qed.

Lemma run_upserts_app cfg pre post st f :
  run_upserts cfg (app pre post) st f =
  run_upserts cfg post (fst (run_upserts cfg pre st f)) (snd (run_upserts cfg pre st f)).
Proof.
  revert st f. induction pre as [|c pre IH]; intros st f; [reflexivity|].
  cbn [app run_upserts]. destruct (upsert_call cfg st c) as [[st' ls] d]. apply IH.
Qed.

Lemma run_upserts_get_other cfg calls st f k :
  Forall (fun c => call_doc_id c <> k) calls ->
  get_doc (fst (run_upserts cfg calls st f)) k = get_doc st k.
Proof.
  revert st f. induction calls as [|c calls IH]; intros st f Hf; [reflexivity|].
  inversion Hf as [|? ? Hc Hf']; subst. cbn [run_upserts].
  destruct (upsert_call cfg st c) as [[st' ls] d] eqn:E.
  rewrite (IH _ _ Hf').
  assert (Est : st' = fst (fst (upsert_call cfg st c))) by (rewrite E; reflexivity).
  rewrite Est. unfold get_doc. simpl. apply lookup_dict_set_other. congruence.
Qed.

Lemma run_upserts_get_last cfg c post st f :
  Forall (fun c' => call_doc_id c' <> call_doc_id c) post ->
  exists doc, get_doc (fst (run_upserts cfg (c :: post) st f)) (call_doc_id c) = Some doc /\
    content doc = call_content c /\
    metadata doc = (match call_metadata c with Some m => m | None => [] end).
Proof.
  intros Hf. cbn [run_upserts].
  destruct (upsert_call cfg st c) as [[st' ls] d] eqn:E.
  rewrite (run_upserts_get_other _ _ _ _ _ Hf).
  assert (Est : st' = fst (fst (upsert_call cfg st c))) by (rewrite E; reflexivity).
  rewrite Est. unfold get_doc. simpl. rewrite lookup_dict_set_same.
  eexists; split; [reflexivity | split; reflexivity].
Qed.

(** [ingest_markdown] on an existing file returns the number of chunks of
    [_chunk_text]; afterwards the id [f"{source_label}::{i}"] holds chunk
    [i] with its [source], [chunk_index] and [total_chunks] metadata, and
    every id not of that form keeps its document. *)
Theorem ingest_markdown_stores_chunks cfg envs fuel st sf text path_str source cs ov
    n st' sf' chunks :
  ingest_markdown cfg envs fuel st sf (Some text) path_str source cs ov = Some (n, st', sf') ->
  _chunk_text fuel text cs ov = Some chunks ->
  let label := str_or (Some source) path_str in
  n = Z.of_nat (List.length chunks) /\
  (forall i chunk, nth_error chunks i = Some chunk ->
     exists doc, get_doc st' (label ++ "::" ++ str_nat i) = Some doc /\
       content doc = chunk /\
       metadata doc = ingest_metadata label i (List.length chunks)) /\
  (forall k, (forall i, (i < List.length chunks)%nat -> k <> (label ++ "::" ++ str_nat i)%string) ->
     get_doc st' k = get_doc st k).
Proof.
  intros H Ec. cbv zeta. unfold ingest_markdown in H. rewrite Ec in H.
  set (label := str_or (Some source) path_str) in *.
  destruct (run_upserts cfg (ingest_calls envs label chunks) st sf) as [st1 f1] eqn:Er.
  injection H as <- <- <-. split; [reflexivity|]. split.
  - intros i chunk Hi.
    destruct (enumerate_from_split 0 i chunks chunk Hi) as [l1 [l2 [E Hl2]]].
    unfold ingest_calls in Er. rewrite E, map_app in Er. cbn [map] in Er.
    rewrite run_upserts_app in Er.
    match type of Er with
    | run_upserts _ (?c :: ?post) ?s0 ?f0 = _ =>
        destruct (run_upserts_get_last cfg c post s0 f0) as [doc [Hg [Hc Hm]]]
    end.
    + apply Forall_map. eapply Forall_impl; [|exact Hl2].
      intros [k x] Hk. cbn [fst] in Hk. cbn [call_doc_id]. intros Ek.
      apply chunk_id_inj in Ek. lia.
    + rewrite Er in Hg. cbn [fst call_doc_id] in Hg. exists doc. split; [exact Hg|].
      cbn [call_content call_metadata] in Hc, Hm. split; [exact Hc | exact Hm].
  - intros k Hk.
    replace st1 with (fst (run_upserts cfg (ingest_calls envs label chunks) st sf))
      by (rewrite Er; reflexivity).
    apply run_upserts_get_other. unfold ingest_calls. apply Forall_map.
    apply Forall_forall. intros [i x] Hin. apply enumerate_from_In in Hin.
    cbn [fst] in Hin. cbn [call_doc_id]. intros E. apply (Hk i); [lia | symmetry; exact E].
Qed.

(** Witness for [ingest_markdown_stores_chunks]. *)
Lemma ingest_markdown_stores_chunks_witness :
  exists n st' sf' doc,
    ingest_markdown Fixtures.cfg_tfidf (fun _ => Fixtures.env0) 10
      (new_store (fun _ => Fixtures.env0) None) None (Some "# Intro
alpha beta") "notes.md" "" 512 64 = Some (n, st', sf') /\
    get_doc st' ("notes.md" ++ "::" ++ str_nat 0) = Some doc /\
    content doc = "Intro alpha beta".
Proof.
  assert (Ec : _chunk_text 10 "# Intro
alpha beta" 512 64 = Some ["Intro alpha beta"%string]) by (vm_compute; reflexivity).
  assert (Ei : exists r, ingest_markdown Fixtures.cfg_tfidf (fun _ => Fixtures.env0) 10
      (new_store (fun _ => Fixtures.env0) None) None (Some "# Intro
alpha beta") "notes.md" "" 512 64 = Some r).
  { unfold ingest_markdown. rewrite Ec.
    destruct (run_upserts _ _ _ _). eexists. reflexivity. }
  destruct Ei as [[[n st'] sf'] Ei].
  destruct (proj1 (proj2 (ingest_markdown_stores_chunks Fixtures.cfg_tfidf
      (fun _ => Fixtures.env0) 10 (new_store (fun _ => Fixtures.env0) None) None "# Intro
alpha beta" "notes.md" "" 512 64 n st' sf' ["Intro alpha beta"%string] Ei Ec))
      0%nat "Intro alpha beta" eq_refl) as [doc [Hg [Hc _]]].
  exists n, st', sf', doc. split; [exact Ei | split; [exact Hg | exact Hc]].
Defined.

(** ** Rehydration: how the sources degrade *)

(** Where [datetime.fromtimestamp] stops: the first and last second of
    the years 1 and 9999, the year 11476, the last [time_t] and the first
    integer beyond it. *)
Example fromtimestamp_bounds :
  Rehydration.fromtimestamp (-62135596800) = Rehydration.Ok (-62135596800)%Z /\
  Rehydration.fromtimestamp (-62135596801) = Rehydration.Raise Rehydration.ValueError /\
  Rehydration.fromtimestamp 253402300799 = Rehydration.Ok 253402300799%Z /\
  Rehydration.fromtimestamp 253402300800 = Rehydration.Raise Rehydration.ValueError /\
  Rehydration.fromtimestamp 300000000000 = Rehydration.Raise Rehydration.ValueError /\
  Rehydration.fromtimestamp (2 ^ 63 - 1) = Rehydration.Raise Rehydration.OSError /\
  Rehydration.fromtimestamp (2 ^ 63) = Rehydration.Raise Rehydration.OverflowError.
Proof. repeat split; vm_compute; reflexivity. Qed.

(** When [ACTIVE_MEMORY.md] exists, an [OSError] raised by [stat()], by
    [datetime.fromtimestamp] or by [read_text()] does not escape
    [_load_active_memory]: it returns a result that is not [available],
    has empty [content] and carries the ["Could not read"] warning (after
    a successful conversion of the modification time the age is still
    recorded).  Whatever it raises is not an [OSError]. *)
Theorem load_active_memory_oserror_warns threshold fs :
  Rehydration.am_exists fs = Rehydration.Ok true ->
  (forall e, Rehydration.am_mtime fs = Rehydration.Raise e -> Rehydration.is_OSError e = true ->
     Rehydration._load_active_memory threshold fs =
     Rehydration.Ok (Rehydration.with_warning Rehydration.am_initial
                       (Rehydration.ActiveMemoryUnreadable e))) /\
  (forall mt e, Rehydration.am_mtime fs = Rehydration.Ok mt ->
     Rehydration.fromtimestamp mt = Rehydration.Raise e -> Rehydration.is_OSError e = true ->
     Rehydration._load_active_memory threshold fs =
     Rehydration.Ok (Rehydration.with_warning Rehydration.am_initial
                       (Rehydration.ActiveMemoryUnreadable e))) /\
  (forall mt t e, Rehydration.am_mtime fs = Rehydration.Ok mt ->
     Rehydration.fromtimestamp mt = Rehydration.Ok t ->
     Rehydration.am_read fs = Rehydration.Raise e -> Rehydration.is_OSError e = true ->
     exists r, Rehydration._load_active_memory threshold fs = Rehydration.Ok r /\
       Rehydration.available r = false /\ Rehydration.am_content r = ""%string /\
       Rehydration.age_hours r <> None /\
       Rehydration.am_warning r = Some (Rehydration.ActiveMemoryUnreadable e)) /\
  (forall e, Rehydration._load_active_memory threshold fs = Rehydration.Raise e ->
     Rehydration.is_OSError e = false).
Proof.
  intros Hex.
  unfold Rehydration._load_active_memory, Rehydration.bind, Rehydration.catch_OSError.
  rewrite Hex. cbn [negb].
  split; [|split; [|split]].
  - intros e Hm Ho. rewrite Hm, Ho. reflexivity.
  - intros mt e Hm Hf Ho. rewrite Hm, Hf, Ho. reflexivity.
  - intros mt t e Hm Hf Hr Ho. rewrite Hm, Hf, Hr, Ho.
    eexists. split; [reflexivity|].
    destruct (Rlt_dec _ _); cbn; repeat split; discriminate.
  - intros e. destruct (Rehydration.am_mtime fs) as [mt|e1].
    + destruct (Rehydration.fromtimestamp mt) as [t|e2].
      * destruct (Rehydration.am_read fs) as [c|e3]; [discriminate|].
        destruct (Rehydration.is_OSError e3) eqn:Eo; [discriminate|].
        intros [= <-]. exact Eo.
      * destruct (Rehydration.is_OSError e2) eqn:Eo; [discriminate|].
        intros [= <-]. exact Eo.
    + destruct (Rehydration.is_OSError e1) eqn:Eo; [discriminate|].
      intros [= <-]. exact Eo.
Qed.

(** Witness for [load_active_memory_oserror_warns]: a snapshot two hours
    old that [read_text] cannot read ([PermissionError]). *)
Lemma load_active_memory_oserror_warns_witness :
  exists r, Rehydration._load_active_memory 2 Fixtures.fs_unreadable_snapshot =
              Rehydration.Ok r /\
    Rehydration.available r = false /\ Rehydration.am_content r = ""%string /\
    Rehydration.age_hours r <> None /\
    Rehydration.am_warning r = Some (Rehydration.ActiveMemoryUnreadable
                                       Rehydration.PermissionError).
Proof.
  apply (proj1 (proj2 (proj2 (load_active_memory_oserror_warns 2
                                Fixtures.fs_unreadable_snapshot eq_refl)))
           1789992800%Z 1789992800%Z Rehydration.PermissionError);
    [reflexivity | vm_compute; reflexivity | reflexivity | reflexivity].
Defined.

Lemma mapM_length {A B} (f : A -> Rehydration.result B) xs ys :
  Rehydration.mapM f xs = Rehydration.Ok ys -> List.length ys = List.length xs.
Proof.
  revert ys. induction xs as [|x xs IH]; intros ys; cbn [Rehydration.mapM].
  - intros [= <-]. reflexivity.
  - unfold Rehydration.bind. destruct (f x) as [y|]; [|discriminate].
    destruct (Rehydration.mapM f xs) as [ys'|]; [|discriminate].
    intros [= <-]. simpl. f_equal. apply IH. reflexivity.
Qed.

Lemma mapM_raise {A B} (f : A -> Rehydration.result B) xs e :
  Rehydration.mapM f xs = Rehydration.Raise e -> exists x, In x xs /\ f x = Rehydration.Raise e.
Proof.
  induction xs as [|x xs IH]; cbn [Rehydration.mapM]; [discriminate|].
  unfold Rehydration.bind. destruct (f x) as [y|e0] eqn:Ef.
  - destruct (Rehydration.mapM f xs) as [ys'|e1]; [discriminate|].
    intros [= <-]. destruct (IH eq_refl) as [x' [Hx' Hf]]. exists x'. split; [right|]; assumption.
  - intros [= <-]. exists x. split; [left; reflexivity | exact Ef].
Qed.

Lemma map_snd_combine_eq {A B} (xs : list A) (ys : list B) :
  List.length xs = List.length ys -> map snd (combine xs ys) = ys.
Proof.
  revert ys. induction xs as [|x xs IH]; intros [|y ys]; simpl; try discriminate; [reflexivity|].
  intros [= E]. rewrite (IH ys E). reflexivity.
Qed.

Lemma slice_to_length {A} (xs : list A) j :
  (0 <= j)%Z -> (List.length (Py.slice_to xs j) <= Z.to_nat j)%nat.
Proof. intros Hj. rewrite slice_to_nonneg by exact Hj. rewrite length_firstn. lia. Qed.

(** [_load_recent_telemetry(max_entries)] with [max_entries >= 0] returns
    at most [max_entries] entries and no more than the directory lists;
    each entry is the parsed content of a listed [run-*.json] file. *)
Theorem load_recent_telemetry_entries max_entries fs entries :
  (0 <= max_entries)%Z ->
  Rehydration._load_recent_telemetry max_entries fs = Rehydration.Ok entries ->
  (List.length entries <= Nat.min (Z.to_nat max_entries) (List.length (Rehydration.tel_glob fs)))%nat /\
  Forall (fun d => exists f, In f (Rehydration.tel_glob fs) /\ Rehydration.tf_load f = Rehydration.Ok d)
         entries.
Proof.
  intros Hm. unfold Rehydration._load_recent_telemetry, Rehydration.bind.
  destruct (Rehydration.tel_exists fs) as [ex|]; [|discriminate].
  destruct (negb ex); [intros [= <-]; split; [simpl; lia | constructor]|].
  destruct (Rehydration.mapM Rehydration.tf_mtime (Rehydration.tel_glob fs)) as [keys|] eqn:Ek;
    [|discriminate].
  intros [= <-].
  set (files := Rehydration.tel_glob fs) in *.
  set (sorted := map snd (sort_desc (combine keys files))).
  assert (Hsorted : Permutation sorted files).
  { unfold sorted. rewrite (Permutation_map snd (sort_desc_perm (combine keys files))).
    rewrite map_snd_combine_eq; [reflexivity|].
    exact (mapM_length _ _ _ Ek). }
  assert (Hsub : forall f, In f (Py.slice_to sorted max_entries) -> In f files).
  { intros f Hf. apply (Permutation_in _ Hsorted). unfold Py.slice_to in Hf.
    exact (slice_In _ _ _ _ Hf). }
  set (sl := Py.slice_to sorted max_entries) in *.
  assert (Hlen : (List.length sl <= Nat.min (Z.to_nat max_entries) (List.length files))%nat).
  { pose proof (slice_to_length sorted max_entries Hm) as H1.
    assert (H2 : (List.length sl <= List.length sorted)%nat).
    { unfold sl. rewrite slice_to_nonneg by exact Hm. rewrite length_firstn. lia. }
    rewrite (Permutation_length Hsorted) in H2. fold sl in H1. lia. }
  clearbody sl. clear Hsorted. split.
  - eapply Nat.le_trans; [|exact Hlen]. clear Hlen Hsub. induction sl as [|f sl IH]; [simpl; lia|].
    cbn [flat_map]. destruct (Rehydration.tf_load f); simpl; lia.
  - induction sl as [|f sl IH]; [constructor|].
    cbn [flat_map]. apply Forall_app. split.
    + destruct (Rehydration.tf_load f) as [d|] eqn:Ed; [|constructor].
      constructor; [|constructor]. exists f. split; [apply Hsub; left; reflexivity | exact Ed].
    + apply IH; [intros f' Hf'; apply Hsub; right; exact Hf' | simpl in Hlen; lia].
Qed.

(** Witness for [load_recent_telemetry_entries]: one listed file and
    [max_entries = 5]. *)
Lemma load_recent_telemetry_entries_witness :
  (List.length [JObj []] <= Nat.min (Z.to_nat 5)
     (List.length [Rehydration.mkTelemetryFile (Rehydration.Ok 1%R) (Rehydration.Ok (JObj []))]))%nat.
Proof.
  exact (proj1 (load_recent_telemetry_entries 5
    {| Rehydration.store_file := Rehydration.Ok None;
       Rehydration.am_exists := Rehydration.Ok false;
       Rehydration.am_mtime := Rehydration.Ok 0%Z;
       Rehydration.am_read := Rehydration.Ok "";
       Rehydration.tel_exists := Rehydration.Ok true;
       Rehydration.tel_glob :=
         [Rehydration.mkTelemetryFile (Rehydration.Ok 1) (Rehydration.Ok (JObj []))];
       Rehydration.org_exists := Rehydration.Ok false;
       Rehydration.org_load := Rehydration.Ok (JObj []);
       Rehydration.clock := 0%Z |} [JObj []] ltac:(lia) eq_refl)).
Defined.

(** [_load_recent_telemetry] never raises because of a file it cannot read
    or parse: it raises only when [exists()] raises or when [stat()] of a
    listed file raises. *)
Theorem load_recent_telemetry_raise max_entries fs e :
  Rehydration._load_recent_telemetry max_entries fs = Rehydration.Raise e ->
  Rehydration.tel_exists fs = Rehydration.Raise e \/
  exists f, In f (Rehydration.tel_glob fs) /\ Rehydration.tf_mtime f = Rehydration.Raise e.
Proof.
  unfold Rehydration._load_recent_telemetry, Rehydration.bind.
  destruct (Rehydration.tel_exists fs) as [ex|e0]; [|intros [= <-]; left; reflexivity].
  destruct (negb ex); [discriminate|].
  destruct (Rehydration.mapM Rehydration.tf_mtime (Rehydration.tel_glob fs)) as [keys|e1] eqn:Ek;
    [discriminate|].
  intros [= <-]. right. exact (mapM_raise _ _ _ Ek).
Qed.

(** Witness for [load_recent_telemetry_raise]: a dangling [run-1.json]. *)
Lemma load_recent_telemetry_raise_witness :
  Rehydration.tel_exists Fixtures.fs_dangling_run =
    Rehydration.Raise Rehydration.FileNotFoundError \/
  exists f, In f (Rehydration.tel_glob Fixtures.fs_dangling_run) /\
    Rehydration.tf_mtime f = Rehydration.Raise Rehydration.FileNotFoundError.
Proof.
  apply (load_recent_telemetry_raise 5 Fixtures.fs_dangling_run). reflexivity.
Defined.

(** [rehydrate] never raises because of the vector store (a failure there
    becomes a warning); it raises exactly when one of the sources it was
    asked to include raises: [_load_active_memory], [_load_recent_telemetry]
    or the [exists()] check of [ORG_REPO_INDEX.json]. *)
Theorem rehydrate_raise_iff cfg env envs threshold fs q top_k am tel org store :
  (exists e, Rehydration.rehydrate cfg env envs threshold fs q top_k am tel org store =
             Rehydration.Raise e) <->
  (am = true /\ exists e, Rehydration._load_active_memory threshold fs = Rehydration.Raise e) \/
  (tel = true /\ exists e, Rehydration._load_recent_telemetry 5 fs = Rehydration.Raise e) \/
  (org = true /\ exists e, Rehydration.org_exists fs = Rehydration.Raise e).
Proof.
  unfold Rehydration.rehydrate.
  match goal with |- context [let '(_, _) := ?p in _] => destruct p as [vh w0] end.
  unfold Rehydration._load_org_index.
  destruct am, tel, org;
  destruct (Rehydration._load_active_memory threshold fs) as [r|e1];
  destruct (Rehydration._load_recent_telemetry 5 fs) as [rs|e2];
  destruct (Rehydration.org_exists fs) as [[|]|e3];
  destruct (Rehydration.org_load fs); cbn;
  split; intros H;
  repeat match goal with
         | H : exists _, _ |- _ => destruct H
         | H : _ /\ _ |- _ => destruct H
         | H : _ \/ _ |- _ => destruct H
         end;
  try discriminate;
  first [ left; split; [reflexivity | eexists; reflexivity]
        | right; left; split; [reflexivity | eexists; reflexivity]
        | right; right; split; [reflexivity | eexists; reflexivity]
        | eexists; reflexivity ].
Qed.

Lemma string_of_list_ascii_app (a b : list ascii) :
  string_of_list_ascii (app a b) = (string_of_list_ascii a ++ string_of_list_ascii b)%string.
Proof. induction a as [|c a IH]; simpl; [reflexivity | rewrite IH; reflexivity]. Qed.

(** When [rehydrate] returns and [top_k >= 0], it holds at most [top_k]
    vector hits; each comes from a document of the store it searched (the
    [store] argument, or the store loaded from the store file), with the
    document's id and metadata, the first 400 characters at most of its
    content, and its cosine score rounded to 4 places. *)
Theorem rehydrate_vector_hits cfg env envs threshold fs q top_k am tel org store b :
  (0 <= top_k)%Z ->
  Rehydration.rehydrate cfg env envs threshold fs q top_k am tel org store = Rehydration.Ok b ->
  (List.length (Rehydration.vector_hits b) <= Z.to_nat top_k)%nat /\
  (Rehydration.vector_hits b = [] \/
  exists vs,
    (store = Some vs \/
     exists file, store = None /\ Rehydration.store_file fs = Rehydration.Ok file /\
                  vs = new_store envs file) /\
    Forall (fun h => exists doc,
              In doc (map snd (_index vs)) /\
              Rehydration.hit_id h = id doc /\
              Rehydration.hit_metadata h = metadata doc /\
              Rehydration.hit_score h =
                Rehydration.round_to 4 (_cosine_sparse (_tfidf_embed q) (sparse_vec (embedding doc))) /\
              (String.length (Rehydration.hit_content h) <= 400)%nat /\
              exists rest, (Rehydration.hit_content h ++ rest)%string = content doc)
           (Rehydration.vector_hits b)).
Proof.
  intros Hk.
  assert (Hchain : forall vh w0,
    (let '(vector_hits_, warnings0) := (vh, w0) in
     Rehydration.bind
       (if am then Rehydration.bind (Rehydration._load_active_memory threshold fs)
                     (fun r => Rehydration.Ok (Some r))
        else Rehydration.Ok None) (fun am0 =>
     Rehydration.bind
       (if tel then Rehydration._load_recent_telemetry 5 fs else Rehydration.Ok []) (fun runs =>
     Rehydration.bind
       (if org then Rehydration.bind (Rehydration._load_org_index fs) (fun idx =>
                 Rehydration.Ok (match idx with
                     | JObj fields =>
                         match Py.lookup "repositories" fields with
                         | Some v => v
                         | None => JArr []
                         end
                     | JArr xs => JArr xs
                     | _ => JArr []
                     end))
        else Rehydration.Ok (JArr [])) (fun repos =>
     Rehydration.Ok (Rehydration.mkContextBundle vector_hits_ am0 runs repos
       (match am0 with
        | Some r => match Rehydration.am_warning r with
                    | Some w => app warnings0 [w]
                    | None => warnings0
                    end
        | None => warnings0
        end) (now env) q))))) = Rehydration.Ok b -> Rehydration.vector_hits b = vh).
  { intros vh w0. cbv beta iota.
    destruct am; [destruct (Rehydration._load_active_memory threshold fs)|]; cbn; try discriminate;
    (destruct tel; [destruct (Rehydration._load_recent_telemetry 5 fs)|]; cbn; try discriminate);
    (destruct org; [destruct (Rehydration._load_org_index fs)|]; cbn; try discriminate);
    intros [= <-]; reflexivity. }
  assert (Hq : forall vs, Rehydration.vector_hits b = map Rehydration.to_hit (query cfg env vs q top_k) ->
    (List.length (Rehydration.vector_hits b) <= Z.to_nat top_k)%nat /\
    Forall (fun h => exists doc,
              In doc (map snd (_index vs)) /\
              Rehydration.hit_id h = id doc /\
              Rehydration.hit_metadata h = metadata doc /\
              Rehydration.hit_score h =
                Rehydration.round_to 4 (_cosine_sparse (_tfidf_embed q) (sparse_vec (embedding doc))) /\
              (String.length (Rehydration.hit_content h) <= 400)%nat /\
              exists rest, (Rehydration.hit_content h ++ rest)%string = content doc)
           (Rehydration.vector_hits b)).
  { intros vs ->. split.
    - rewrite length_map. unfold query. destruct (_index vs); [simpl; lia|].
      apply slice_to_length. exact Hk.
    - apply Forall_map, Forall_forall. intros [s doc] Hin.
      pose proof (query_In_scored cfg env vs q top_k (s, doc) Hin) as Hs.
      cbn [fst snd] in Hs.
      exists doc. split; [|split; [reflexivity | split; [reflexivity | split; [|split]]]].
      + unfold query in Hin. destruct (_index vs) as [|e idx] eqn:Ei; [contradiction|].
        rewrite <- Ei. apply slice_In in Hin.
        apply (Permutation_in _ (sort_desc_perm _)) in Hin.
        unfold scored_candidates in Hin. apply in_map_iff in Hin as [d [Ed Hd]].
        injection Ed as _ <-. exact Hd.
      + cbn. rewrite Hs. reflexivity.
      + cbn [Rehydration.to_hit Rehydration.hit_content].
        rewrite string_length_of_list, slice_to_nonneg by lia.
        rewrite length_firstn. change (Z.to_nat 400) with 400%nat. lia.
      + cbn [Rehydration.to_hit Rehydration.hit_content].
        exists (string_of_list_ascii (skipn 400 (list_ascii_of_string (content doc)))).
        rewrite slice_to_nonneg by lia. change (Z.to_nat 400) with 400%nat.
        rewrite <- string_of_list_ascii_app, firstn_skipn.
        apply string_of_list_ascii_of_string. }
  unfold Rehydration.rehydrate.
  destruct store as [s|].
  - cbn [Rehydration.bind]. intros H. apply Hchain in H.
    destruct (Hq s H) as [H1 H2]. split; [exact H1|]. right.
    exists s. split; [left; reflexivity | exact H2].
  - destruct (Rehydration.store_file fs) as [file|e] eqn:Ef; cbn [Rehydration.bind].
    + intros H. apply Hchain in H.
      destruct (Hq (new_store envs file) H) as [H1 H2]. split; [exact H1|]. right.
      exists (new_store envs file).
      split; [right; exists file; split; [reflexivity | split; reflexivity] | exact H2].
    + intros H. apply Hchain in H. rewrite H. split; [simpl; lia | left; reflexivity].
Qed.

(** Witness for [rehydrate_vector_hits]: the store [store_ab] passed in,
    the other sources left out. *)
Lemma rehydrate_vector_hits_witness :
  (List.length (map Rehydration.to_hit
     (query Fixtures.cfg_tfidf Fixtures.env0 Fixtures.store_ab "autonomous policy" 1))
   <= Z.to_nat 1)%nat.
Proof.
  exact (proj1 (rehydrate_vector_hits Fixtures.cfg_tfidf Fixtures.env0 (fun _ => Fixtures.env0) 2
    Fixtures.fs_dangling_run "autonomous policy" 1 false false false (Some Fixtures.store_ab)
    (Rehydration.mkContextBundle
       (map Rehydration.to_hit
          (query Fixtures.cfg_tfidf Fixtures.env0 Fixtures.store_ab "autonomous policy" 1))
       None [] (JArr []) [] (now Fixtures.env0) "autonomous policy")
    ltac:(lia) eq_refl)).
Defined.

(** ** Chunking without overlap keeps every word once *)

(** A word of [str.split()]: non-empty, without whitespace. *)
Definition word_ok (w : string) : Prop :=
  w <> EmptyString /\ Forall (fun c => Py.is_space c = false) (list_ascii_of_string w).

Lemma split_ws_go_word (w cs cur : list ascii) :
  Forall (fun c => Py.is_space c = false) w ->
  Py.split_ws_go (app w cs) cur = Py.split_ws_go cs (app (rev w) cur).
Proof.
  revert cur. induction w as [|c w IH]; intros cur Hw; [reflexivity|].
  inversion Hw as [|? ? Hc Hw']; subst. cbn [app Py.split_ws_go]. rewrite Hc.
  rewrite (IH _ Hw'). cbn [rev]. rewrite <- app_assoc. reflexivity.
Qed.

Lemma list_ascii_nonempty (w : string) : w <> EmptyString -> list_ascii_of_string w <> [].
Proof. destruct w; [congruence | discriminate]. Qed.

Lemma split_ws_go_join (ws : list string) :
  Forall word_ok ws -> Py.split_ws_go (list_ascii_of_string (Py.join_space ws)) [] = ws.
Proof.
  induction ws as [|w ws IH]; intros Hf; [reflexivity|].
  inversion Hf as [|? ? [Hne Hw] Hf']; subst.
  pose proof (list_ascii_nonempty w Hne) as Hl.
  destruct ws as [|w' ws].
  - cbn [Py.join_space]. rewrite <- (app_nil_r (list_ascii_of_string w)).
    rewrite split_ws_go_word by exact Hw. rewrite app_nil_r.
    destruct (rev (list_ascii_of_string w)) as [|c r] eqn:Er.
    + apply (f_equal (@rev ascii)) in Er. rewrite rev_involutive in Er. contradiction.
    + cbn [Py.split_ws_go]. rewrite <- Er, rev_involutive, string_of_list_ascii_of_string.
      reflexivity.
  - change (Py.join_space (w :: w' :: ws)) with (w ++ " " ++ Py.join_space (w' :: ws))%string.
    rewrite list_ascii_of_string_append. cbn [list_ascii_of_string append].
    rewrite split_ws_go_word by exact Hw. rewrite app_nil_r.
    cbn [Py.split_ws_go]. replace (Py.is_space " ") with true by reflexivity.
    destruct (rev (list_ascii_of_string w)) as [|c r] eqn:Er.
    + apply (f_equal (@rev ascii)) in Er. rewrite rev_involutive in Er. contradiction.
    + rewrite <- Er, rev_involutive, string_of_list_ascii_of_string, (IH Hf'). reflexivity.
Qed.

Lemma split_ws_join (ws : list string) :
  Forall word_ok ws -> Py.split_ws (Py.join_space ws) = ws.
Proof. exact (split_ws_go_join ws). Qed.

Lemma split_ws_go_word_ok (cs cur : list ascii) :
  Forall (fun c => Py.is_space c = false) cur -> Forall word_ok (Py.split_ws_go cs cur).
Proof.
  assert (Hpiece : forall cur, Forall (fun c => Py.is_space c = false) cur -> cur <> [] ->
            word_ok (string_of_list_ascii (rev cur))).
  { intros cur0 Hc Hne. split.
    - destruct cur0 as [|c cur0]; [congruence|]. cbn [rev].
      intros E. apply (f_equal String.length) in E.
      rewrite string_length_of_list, length_app in E. simpl in E. lia.
    - rewrite list_ascii_of_string_of_list_ascii. apply Forall_rev. exact Hc. }
  revert cur. induction cs as [|c cs IH]; intros cur Hc; cbn [Py.split_ws_go].
  - destruct cur as [|c0 cur]; [constructor|]. constructor; [|constructor].
    apply Hpiece; [exact Hc | discriminate].
  - destruct (Py.is_space c) eqn:Es.
    + destruct cur as [|c0 cur]; [apply IH; constructor|].
      constructor; [apply Hpiece; [exact Hc | discriminate] | apply IH; constructor].
    + apply IH. constructor; assumption.
Qed.

Lemma split_ws_word_ok (s : string) : Forall word_ok (Py.split_ws s).
Proof. apply split_ws_go_word_ok. constructor. Qed.

Lemma word_ok_nonblank (w : string) : word_ok w -> nonblank w.
Proof.
  intros [Hne Hw]. unfold nonblank, Py.strip_nonempty.
  destruct (list_ascii_of_string w) as [|c cs] eqn:E.
  - exfalso. exact (list_ascii_nonempty w Hne E).
  - inversion Hw as [|? ? Hc _]; subst. simpl. rewrite Hc. reflexivity.
Qed.

Lemma Forall_firstn_skipn {A} (P : A -> Prop) (k j : nat) (l : list A) :
  Forall P l -> Forall P (firstn k (skipn j l)).
Proof.
  intros H. rewrite <- (firstn_skipn j l) in H. apply Forall_app in H as [_ H].
  rewrite <- (firstn_skipn k (skipn j l)) in H. apply Forall_app in H as [H _]. exact H.
Qed.

(** With no overlap, the windows of a section, split again into words, give
    the words from the start position on. *)
Lemma window_loop_words_no_overlap fuel words cs s a :
  (0 < cs)%Z -> (0 <= s)%Z -> Forall word_ok words ->
  window_loop fuel words cs 0 s = Some a ->
  flat_map Py.split_ws a = skipn (Z.to_nat s) words.
Proof.
  intros Hcs. revert s a. induction fuel as [|f IH]; intros s a Hs Hw; cbn [window_loop];
    [discriminate|].
  destruct (s <? Z.of_nat (List.length words))%Z eqn:Elt.
  2:{ intros [= <-]. apply Z.ltb_ge in Elt. rewrite skipn_all2 by lia. reflexivity. }
  apply Z.ltb_lt in Elt.
  rewrite (loop_slice_window words cs s Hcs ltac:(lia)).
  set (win := firstn (Z.to_nat cs) (skipn (Z.to_nat s) words)).
  assert (Hwin : Forall word_ok win) by (apply Forall_firstn_skipn; exact Hw).
  assert (Hnb : Py.strip_nonempty (Py.join_space win) = true).
  { pose proof (window_nonblank words cs s) as H. unfold window, nonblank in H. apply H.
    - apply (Forall_impl _ word_ok_nonblank). exact Hw.
    - exact Hcs.
    - lia. }
  rewrite Hnb.
  assert (Hsplit : flat_map Py.split_ws [Py.join_space win] = win).
  { simpl. rewrite app_nil_r. apply split_ws_join. exact Hwin. }
  destruct (Z.of_nat (List.length words) <=? Z.min (s + cs) (Z.of_nat (List.length words)))%Z
    eqn:Ele.
  - intros [= <-]. rewrite Hsplit. unfold win. apply firstn_all2.
    rewrite length_skipn. apply Z.leb_le in Ele. lia.
  - apply Z.leb_gt in Ele.
    destruct (window_loop f words cs 0 _) as [rest|] eqn:Er; [|discriminate].
    intros [= <-]. cbn [app flat_map]. rewrite (split_ws_join win Hwin).
    rewrite (IH (Z.min (s + cs) (Z.of_nat (List.length words)) - 0)%Z rest ltac:(lia) Hw Er).
    replace (Z.to_nat (Z.min (s + cs) (Z.of_nat (List.length words)) - 0))
      with (Z.to_nat cs + Z.to_nat s)%nat by lia.
    unfold win. rewrite <- skipn_skipn. apply firstn_skipn.
Qed.

Lemma sections_loop_words_no_overlap fuel secs cs out :
  (0 < cs)%Z -> sections_loop fuel secs cs 0 = Some out ->
  flat_map Py.split_ws out = flat_map Py.split_ws secs.
Proof.
  intros Hcs. revert out. induction secs as [|sec secs IH]; intros out; cbn [sections_loop].
  - intros [= <-]. reflexivity.
  - cbn [flat_map]. destruct (Py.split_ws sec) as [|w ws] eqn:Ew.
    + intros H. exact (IH out H).
    + destruct (window_loop fuel (w :: ws) cs 0 0) as [a|] eqn:Ea; [|discriminate].
      destruct (sections_loop fuel secs cs 0) as [b|] eqn:Eb; [|discriminate].
      intros [= <-]. rewrite flat_map_app, (IH b eq_refl).
      rewrite (window_loop_words_no_overlap fuel (w :: ws) cs 0 a Hcs ltac:(lia)); [reflexivity| |exact Ea].
      rewrite <- Ew. apply split_ws_word_ok.
Qed.

(** With [overlap = 0] and [chunk_size > 0], [_chunk_text] loses, repeats
    and reorders no word: when some section between headings has a word,
    the words of the chunks, in order, are the words of the sections. *)
Theorem chunk_text_no_overlap_words fuel text cs chunks :
  (0 < cs)%Z ->
  _chunk_text fuel text cs 0 = Some chunks ->
  Exists (fun s => Py.split_ws s <> []) (heading_split text) ->
  flat_map Py.split_ws chunks = flat_map Py.split_ws (heading_split text).
Proof.
  intros Hcs. unfold _chunk_text.
  destruct (sections_loop fuel (heading_split text) cs 0) as [out|] eqn:E; [|discriminate].
  intros H Hex. pose proof (sections_loop_empty _ _ _ _ _ Hcs E) as Hiff.
  destruct out as [|c cs'].
  - exfalso. apply Exists_Forall_neg in Hex; [apply Hex, Hiff; reflexivity|].
    intros s. destruct (Py.split_ws s); [left; congruence | right; discriminate].
  - injection H as <-. exact (sections_loop_words_no_overlap _ _ _ _ Hcs E).
Qed.

(** Witness for [chunk_text_no_overlap_words]: two sections, the second
    longer than one chunk. *)
Lemma chunk_text_no_overlap_words_witness :
  flat_map Py.split_ws ["a b"%string; "c d"%string; "e"%string] =
  flat_map Py.split_ws (heading_split "a b
# c d e").
Proof.
  apply (chunk_text_no_overlap_words 10 "a b
# c d e" 2 ["a b"%string; "c d"%string; "e"%string] ltac:(lia)).
  - vm_compute. reflexivity.
  - vm_compute. left. discriminate.
Defined.

(** When [ORG_REPO_INDEX.json] is absent or cannot be read or parsed, a
    [rehydrate] that returns has the empty list as [org_repos]. *)
Theorem rehydrate_org_repos_degrade cfg env envs threshold fs q top_k am tel org store b :
  (Rehydration.org_exists fs = Rehydration.Ok false \/
   exists e, Rehydration.org_load fs = Rehydration.Raise e) ->
  Rehydration.rehydrate cfg env envs threshold fs q top_k am tel org store = Rehydration.Ok b ->
  Rehydration.org_repos b = JArr [].
Proof.
  intros Horg. unfold Rehydration.rehydrate.
  match goal with |- context [let '(_, _) := ?p in _] => destruct p as [vh w0] end.
  unfold Rehydration._load_org_index.
  destruct am; [destruct (Rehydration._load_active_memory threshold fs)|]; cbn; try discriminate;
  (destruct tel; [destruct (Rehydration._load_recent_telemetry 5 fs)|]; cbn; try discriminate);
  (destruct org; cbn; [|intros [= <-]; reflexivity]);
  (destruct (Rehydration.org_exists fs) as [[|]|e3]; cbn; try discriminate;
   [destruct Horg as [Hf|[e He]]; [discriminate | rewrite He; cbn; intros [= <-]; reflexivity]
   | intros [= <-]; reflexivity]).
Qed.

(** Witness for [rehydrate_org_repos_degrade]: the checkout
    [fs_far_future_snapshot], which has no [ORG_REPO_INDEX.json], with the
    active memory left out. *)
Lemma rehydrate_org_repos_degrade_witness :
  Rehydration.org_repos
    (Rehydration.mkContextBundle [] None [] (JArr []) [] (now Fixtures.env0) "q") = JArr [].
Proof.
  apply (rehydrate_org_repos_degrade Fixtures.cfg_tfidf Fixtures.env0 (fun _ => Fixtures.env0) 2
           Fixtures.fs_far_future_snapshot "q" 3 false true true (Some (mkVectorStore []))).
  - left. reflexivity.
  - reflexivity.
Defined.

(** ** The fallback of [_chunk_text] *)

(** A chunk made of one or more words (no whitespace in any), joined by
    single spaces. *)
Definition joined_words (c : string) : Prop :=
  exists ws, ws <> [] /\ Forall word_ok ws /\ c = Py.join_space ws.

Lemma window_loop_joined fuel words cs ov start a :
  Forall word_ok words ->
  window_loop fuel words cs ov start = Some a -> Forall joined_words a.
Proof.
  intros Hw. revert start a. induction fuel as [|f IH]; intros start a; cbn [window_loop];
    [discriminate|].
  destruct (start <? _)%Z; [|intros [= <-]; constructor].
  set (sl := Py.slice words start _).
  assert (He : Forall joined_words
                 (if Py.strip_nonempty (Py.join_space sl) then [Py.join_space sl] else [])).
  { destruct (Py.strip_nonempty (Py.join_space sl)) eqn:Es; repeat constructor.
    exists sl. split; [|split; [|reflexivity]].
    - intros E. rewrite E in Es. discriminate.
    - apply Forall_forall. intros x Hx. apply slice_In in Hx.
      exact (proj1 (Forall_forall _ _) Hw x Hx). }
  destruct (_ <=? _)%Z; [intros [= <-]; exact He|].
  destruct (window_loop f _ _ _ _) eqn:Er; [intros [= <-] | discriminate].
  apply Forall_app. split; [exact He | exact (IH _ _ Er)].
Qed.

Lemma sections_loop_joined fuel secs cs ov out :
  sections_loop fuel secs cs ov = Some out -> Forall joined_words out.
Proof.
  revert out. induction secs as [|s secs IH]; intros out; cbn [sections_loop];
    [intros [= <-]; constructor|].
  destruct (Py.split_ws s) as [|w ws] eqn:Ew; [apply IH|].
  destruct (window_loop fuel _ cs ov 0) as [a|] eqn:Ea; [|discriminate].
  destruct (sections_loop fuel secs cs ov) as [b|]; [|discriminate].
  intros [= <-]. apply Forall_app. split.
  - refine (window_loop_joined _ _ _ _ _ _ _ Ea). rewrite <- Ew. apply split_ws_word_ok.
  - apply IH. reflexivity.
Qed.

(** With [chunk_size > 0], [_chunk_text] takes the fallback
    [chunks or [text[:chunk_size * 6]]] exactly when no section between
    headings contains a word: then it returns that raw slice; otherwise it
    returns the non-empty list [chunks] built by its loop, each chunk one or
    more whitespace-free words joined by single spaces. *)
Theorem chunk_text_fallback_iff_no_words fuel text cs ov r :
  (0 < cs)%Z ->
  _chunk_text fuel text cs ov = Some r ->
  (Forall (fun s => Py.split_ws s = []) (heading_split text) ->
   r = [string_of_list_ascii
          (Py.slice_to (list_ascii_of_string text) (cs * _CHUNK_FALLBACK_MULTIPLIER)%Z)]) /\
  (~ Forall (fun s => Py.split_ws s = []) (heading_split text) ->
   sections_loop fuel (heading_split text) cs ov = Some r /\ r <> [] /\
   Forall joined_words r).
Proof.
  intros Hcs. unfold _chunk_text.
  destruct (sections_loop fuel (heading_split text) cs ov) as [out|] eqn:E; [|discriminate].
  pose proof (sections_loop_empty _ _ _ _ _ Hcs E) as Hiff.
  pose proof (sections_loop_joined _ _ _ _ _ E) as Hj.
  destruct out as [|c cs']; intros [= <-]; split.
  - intros _. reflexivity.
  - intros Hn. exfalso. apply Hn, Hiff. reflexivity.
  - intros Hf. apply Hiff in Hf. discriminate.
  - intros _. split; [reflexivity | split; [discriminate | exact Hj]].
Qed.

(** Witness for [chunk_text_fallback_iff_no_words]: the one-word text
    ["hello"] goes through the loop, although its one chunk equals the
    raw slice. *)
Lemma chunk_text_fallback_iff_no_words_witness :
  sections_loop 10 (heading_split "hello") 512 64 = Some ["hello"%string].
Proof.
  apply (proj2 (chunk_text_fallback_iff_no_words 10 "hello" 512 64 ["hello"%string]
                  ltac:(lia) ltac:(vm_compute; reflexivity))).
  vm_compute. intros H. inversion H as [|? ? Hx _]. discriminate Hx.
Defined.
